(** * yt-2-podcast: the ingestion and publishing pipeline

    A shallow embedding of [scripts/utils.py], [scripts/download_audio.py],
    [scripts/upload_to_release.py] and [scripts/generate_rss.py].

    Conventions.
    - A Python [str] is a [string]; one [ascii] stands for one character and
      strings are compared character by character, as Python compares code
      points.
    - A video dictionary of the state file is the record [Video]; a key the
      code reads with [.get] (or whose [KeyError] it catches) is an [option].
    - What the code asks of the outside world (file system, clock, yt-dlp,
      the GitHub API) is read from a world record, one per script run.
    - A call that can raise returns a [result]. *)

From stdpp Require Import base tactics option list strings gmap sorting.
From Stdlib Require Import ZArith Lia Ascii String DecimalString DecimalN.

Local Open Scope string_scope.

(** ** Exceptions *)

Inductive exn :=
| ValueError | KeyError | RuntimeError | OSError | UnicodeDecodeError
| GithubException.

Inductive result (A : Type) :=
| Ok (a : A)
| Raise (e : exn).
Arguments Ok {A} a.
Arguments Raise {A} e.

#[global] Instance result_ret : MRet result := fun _ a => Ok a.
#[global] Instance result_bind : MBind result := fun _ _ k r =>
  match r with
  | Ok a => k a
  | Raise e => Raise e
  end.

(** ** Data model *)

Record Video := {
  video_id : string;
  title : string;
  description : option string;
  processed_date : string;
  pub_date : option string;
  duration : string;
  file_size : Z;
  file_path : option string;
  release_tag : option string;
  audio_url : option string;
}.

(** The document of [state/processed_videos.json]. *)
Record State := {
  last_updated : option string;
  videos : list Video;
}.

(** Python truthiness of [v.get(key)] for a string-valued key: [None] and
    the empty string are false. *)
Definition truthy (o : option string) : bool :=
  match o with
  | None => false
  | Some s => negb (String.eqb s "")
  end.

(** [key in d] *)
Definition present {A : Type} (o : option A) : bool :=
  match o with
  | Some _ => true
  | None => false
  end.

Definition with_release (v : Video) (url tag : string) : Video :=
  {| video_id := video_id v;
     title := title v;
     description := description v;
     processed_date := processed_date v;
     pub_date := pub_date v;
     duration := duration v;
     file_size := file_size v;
     file_path := file_path v;
     release_tag := Some tag;
     audio_url := Some url |}.

(** ** Dates *)

(** A naive [datetime.datetime]. *)
Record datetime := {
  year : Z;
  month : Z;
  day : Z;
  hour : Z;
  minute : Z;
  second : Z;
  microsecond : Z;
}.

Definition digits_of (n : Z) : string :=
  NilZero.string_of_uint (N.to_uint (Z.to_N n)).

Fixpoint zeros (n : nat) : string :=
  match n with
  | O => ""
  | S n' => "0" ++ zeros n'
  end.

(** ["%0{width}d" % n] for [0 <= n]. *)
Definition zpad (width : nat) (n : Z) : string :=
  let d := digits_of n in
  zeros (width - String.length d) ++ d.

(** [dt.isoformat()] *)
Definition isoformat (dt : datetime) : string :=
  zpad 4 (year dt) ++ "-" ++ zpad 2 (month dt) ++ "-" ++ zpad 2 (day dt)
  ++ "T" ++ zpad 2 (hour dt) ++ ":" ++ zpad 2 (minute dt)
  ++ ":" ++ zpad 2 (second dt)
  ++ (if (microsecond dt =? 0)%Z then ""
      else "." ++ zpad 6 (microsecond dt)).

(** [dt.strftime('%Y-%m-%d-%H%M%S')], for years of four digits. *)
Definition strftime_stamp (dt : datetime) : string :=
  zpad 4 (year dt) ++ "-" ++ zpad 2 (month dt) ++ "-" ++ zpad 2 (day dt)
  ++ "-" ++ zpad 2 (hour dt) ++ zpad 2 (minute dt) ++ zpad 2 (second dt).

(** A number that orders valid datetimes as time does. *)
Definition ordinal (dt : datetime) : Z :=
  ((((((year dt * 12 + (month dt - 1)) * 31 + (day dt - 1)) * 24
      + hour dt) * 60 + minute dt) * 60 + second dt) * 1000000
   + microsecond dt)%Z.

Definition is_leap (y : Z) : bool :=
  ((y mod 4 =? 0) && (negb (y mod 100 =? 0) || (y mod 400 =? 0)))%Z.

Definition days_in_month (y m : Z) : Z :=
  if (m =? 2)%Z then (if is_leap y then 29 else 28)%Z
  else if ((m =? 4) || (m =? 6) || (m =? 9) || (m =? 11))%Z then 30%Z
  else 31%Z.

Definition digit_value (c : ascii) : option Z :=
  let n := Z.of_nat (nat_of_ascii c) in
  if ((48 <=? n) && (n <=? 57))%Z then Some (n - 48)%Z else None.

(** [datetime.strptime(s, '%Y%m%d')] on a string of eight characters:
    [%Y] takes four digits, [%m] is [1[0-2]|0[1-9]], [%d] is
    [3[01]|[12]\d|0[1-9]| [1-9]]; the date must exist.  [None] stands for
    [ValueError]. *)
Definition strptime_Ymd (s : string) : option datetime :=
  match list_ascii_of_string s with
  | [y1; y2; y3; y4; m1; m2; d1; d2] =>
      a ← digit_value y1; b ← digit_value y2;
      c ← digit_value y3; d ← digit_value y4;
      m ← (p ← digit_value m1; q ← digit_value m2; Some (10 * p + q)%Z);
      dd ← (if Ascii.eqb d1 " " then digit_value d2
            else p ← digit_value d1; q ← digit_value d2; Some (10 * p + q)%Z);
      let y := (1000 * a + 100 * b + 10 * c + d)%Z in
      if ((1 <=? y) && (1 <=? m) && (m <=? 12)
          && (1 <=? dd) && (dd <=? days_in_month y m))%Z
      then Some {| year := y; month := m; day := dd;
                   hour := 0; minute := 0; second := 0; microsecond := 0 |}
      else None
  | _ => None
  end.

(** [s.replace('Z', '+00:00')] *)
Fixpoint replace_Z (s : string) : string :=
  match s with
  | EmptyString => EmptyString
  | String c s' =>
      if Ascii.eqb c "Z" then "+00:00" ++ replace_Z s'
      else String c (replace_Z s')
  end.

(** ** scripts/utils.py *)

Module Utils.

(** [f"{n:02d}"]: decimal, padded with zeros to two characters; the sign of
    a negative number counts as one of them. *)
Definition format_02d (n : Z) : string :=
  let digits := NilZero.string_of_int (Z.to_int n) in
  if (0 <=? n)%Z && (n <? 10)%Z then "0" ++ digits else digits.

Definition format_hms (duration_seconds : Z) : string :=
  let hours := (duration_seconds / 3600)%Z in
  let minutes := ((duration_seconds mod 3600) / 60)%Z in
  let seconds := (duration_seconds mod 60)%Z in
  format_02d hours ++ ":" ++ format_02d minutes ++ ":" ++ format_02d seconds.

(** [probe file_path] is [int(MP3(file_path).info.length)], or [None] when
    opening the file, parsing it or the conversion raises. *)
Definition get_audio_duration (probe : string -> option Z) (file_path : string)
  : string :=
  match probe file_path with
  | Some duration_seconds => format_hms duration_seconds
  | None => "00:00:00"
  end.

(** The state file on disk, as [open] and [json.load] see it.  Valid JSON in
    the file is a state document (the only writer is [save_state]). *)
Inductive StateFile :=
| Absent                    (* [state_file.exists()] is false *)
| Unreadable (e : exn)      (* reading raises [e]: no permission, undecodable bytes *)
| Garbage (text : string)   (* text that [json.load] rejects *)
| Partial (doc : State)     (* a proper prefix, possibly empty, of the dump of [doc],
                               ending between two characters *)
| Document (doc : State).   (* the complete dump of [doc] *)

Definition empty_state : State :=
  {| last_updated := None; videos := [] |}.

(** [load_state]; only [json.JSONDecodeError] is caught. *)
Definition load_state (f : StateFile) : result State :=
  match f with
  | Absent => Ok empty_state
  | Unreadable e => Raise e
  | Garbage _ => Ok empty_state
  | Partial _ => Ok empty_state
  | Document doc => Ok doc
  end.

(** What [load_state] prints. *)
Definition load_state_prints (state_file : string) (f : StateFile)
  : list string :=
  match f with
  | Garbage _ | Partial _ =>
      ["Warning: Invalid JSON in " ++ state_file ++ ", returning empty state"]
  | _ => []
  end.

Definition new_document (utcnow_isoformat : string) (videos : list Video)
  : State :=
  {| last_updated := Some (utcnow_isoformat ++ "Z"); videos := videos |}.

(** [save_state] run to completion: [open(state_file, 'w')] truncates the
    file, [json.dump] writes the document into it. *)
Definition save_state (utcnow_isoformat : string) (videos : list Video)
    (f : StateFile) : StateFile :=
  Document (new_document utcnow_isoformat videos).



Definition get_processed_video_ids (f : StateFile) : result (gset string) :=
  state ← load_state f;
  Ok (list_to_set (video_id <$> videos state)).

(** [add_video_to_state]: load, append, save. *)
Definition add_video_to_state (utcnow_isoformat : string) (video_info : Video)
    (f : StateFile) : result StateFile :=
  state ← load_state f;
  Ok (save_state utcnow_isoformat (app (videos state) [video_info]) f).

End Utils.

(** ** scripts/upload_to_release.py *)

Module Upload.

(** What one run of the script reads from its environment.  The [nat]
    argument is the loop index [idx] of [enumerate(videos_to_upload, 1)]:
    each call gets its own answer. *)
Record World := {
  env_GITHUB_TOKEN : option string;
  env_GITHUB_REPOSITORY : option string;
  (** [file_path.exists()] *)
  path_exists : nat -> string -> bool;
  (** [file_path.stat().st_size] *)
  st_size : nat -> string -> Z;
  (** [datetime.utcnow()] when a release is created *)
  utcnow : nat -> datetime;
  (** [repo.create_git_release] returns ([true]) or raises ([false]) *)
  create_git_release : nat -> string -> bool;
  (** [release.upload_asset(...).browser_download_url]; [None] when the
      call raises *)
  upload_asset : nat -> string -> string -> option string;
  (** [datetime.utcnow()] when the state is saved *)
  utcnow_save : datetime;
}.

Definition get_github_token (w : World) : result string :=
  if truthy (env_GITHUB_TOKEN w)
  then Ok (default "" (env_GITHUB_TOKEN w))
  else Raise ValueError.

Fixpoint split_char (c : ascii) (s : string) : list string :=
  match s with
  | EmptyString => [EmptyString]
  | String a s' =>
      if Ascii.eqb a c then EmptyString :: split_char c s'
      else match split_char c s' with
           | p :: ps => String a p :: ps
           | [] => [String a EmptyString]
           end
  end.

Definition get_repo_info (w : World) : result (string * string) :=
  if truthy (env_GITHUB_REPOSITORY w) then
    match split_char "/" (default "" (env_GITHUB_REPOSITORY w)) with
    | [owner; repo_name] => Ok (owner, repo_name)
    | _ => Raise ValueError
    end
  else Raise ValueError.

(** [MAX_RELEASE_SIZE = 1.8 * 1024 * 1024 * 1024] is the float
    1932735283.2000000477; [current_size] is an int, and Python compares the
    two exactly, so [current_size >= MAX_RELEASE_SIZE] holds from
    1932735284 on. *)
Definition MAX_RELEASE_SIZE_ceil : Z := 1932735284.

Definition size_limit_reached (current_size : Z) : bool :=
  (MAX_RELEASE_SIZE_ceil <=? current_size)%Z.

(** A release is known to the script by its [tag_name]. *)
Definition create_release (w : World) (idx : nat) (tag_name : string)
  : result string :=
  if create_git_release w idx tag_name then Ok tag_name
  else Raise GithubException.

(** Returns the release, the cumulative size, and whether a release was
    created by this call. *)
Definition get_or_create_release (w : World) (idx : nat)
    (current_release : option string) (current_size : Z)
  : result (string * Z * bool) :=
  match current_release with
  | Some r =>
      if size_limit_reached current_size then
        new_release ←
          create_release w idx ("release-" ++ strftime_stamp (utcnow w idx));
        Ok (new_release, 0%Z, true)
      else Ok (r, current_size, false)
  | None =>
      new_release ←
        create_release w idx ("release-" ++ strftime_stamp (utcnow w idx));
      Ok (new_release, 0%Z, true)
  end.

Definition upload_file_to_release (w : World) (idx : nat)
    (release file_path : string) : option string :=
  upload_asset w idx release file_path.

(** History of the releases used by a run, newest first; each with the
    sizes of the assets uploaded to it, newest first.  It records the values
    taken by [current_release] and [file_size]; the script keeps no such
    list. *)
Definition Batch : Type := string * list Z.

Definition note_release (created : bool) (tag : string) (h : list Batch)
  : list Batch :=
  if created then (tag, []) :: h else h.

Definition note_upload (size : Z) (h : list Batch) : list Batch :=
  match h with
  | (tag, sizes) :: rest => (tag, size :: sizes) :: rest
  | [] => []
  end.

(** The video dictionaries live in [objs]; [videos] and [videos_to_upload]
    hold references (positions in [objs]) to the same dictionaries. *)
Record Loop := {
  objs : list Video;
  current_release : option string;
  current_size : Z;
  history : list Batch;
}.

Definition the_file_path (video : Video) : string :=
  default ("downloads/" ++ video_id video ++ ".mp3") (file_path video).

(** One iteration of [for idx, video in enumerate(videos_to_upload, 1)]. *)
Definition upload_step (w : World) (idx : nat) (ref : nat) (st : Loop)
  : result Loop :=
  match objs st !! ref with
  | None => Ok st
  | Some video =>
      let file_path := the_file_path video in
      if negb (path_exists w idx file_path) then Ok st
      else
        let file_size := st_size w idx file_path in
        '(release, size, created) ←
           get_or_create_release w idx (current_release st) (current_size st);
        let h := note_release created release (history st) in
        let download_url := upload_file_to_release w idx release file_path in
        if truthy download_url then
          Ok {| objs := <[ref := with_release video (default "" download_url) release]> (objs st);
                current_release := Some release;
                current_size := (size + file_size)%Z;
                history := note_upload file_size h |}
        else
          Ok {| objs := objs st;
                current_release := Some release;
                current_size := size;
                history := h |}
  end.

Fixpoint upload_loop (w : World) (idx : nat) (refs : list nat) (st : Loop)
  : result Loop :=
  match refs with
  | [] => Ok st
  | ref :: refs' =>
      st' ← upload_step w idx ref st;
      upload_loop w (S idx) refs' st'
  end.

(** [[v for v in videos if not v.get('audio_url')]], as references. *)
Definition needs_upload (objs : list Video) (ref : nat) : bool :=
  match objs !! ref with
  | Some v => negb (truthy (audio_url v))
  | None => false
  end.

Definition videos_to_upload (objs : list Video) : list nat :=
  filter (fun ref => needs_upload objs ref) (seq 0 (List.length objs)).

Definition start (videos : list Video) : Loop :=
  {| objs := videos;
     current_release := None;
     current_size := 0%Z;
     history := [] |}.

(** The loop of [upload_new_videos_to_release] on the loaded videos. *)
Definition upload_all (w : World) (videos : list Video) : result Loop :=
  upload_loop w 1 (videos_to_upload videos) (start videos).

Definition upload_new_videos_to_release (w : World) (f : Utils.StateFile)
  : result Utils.StateFile :=
  token ← get_github_token w;
  repo ← get_repo_info w;
  state ← Utils.load_state f;
  match videos_to_upload (videos state) with
  | [] => Ok f
  | _ :: _ =>
      st ← upload_all w (videos state);
      Ok (Utils.save_state (isoformat (utcnow_save w)) (objs st) f)
  end.

(** [main] catches every exception: the state file is then as it was. *)
Definition main (w : World) (f : Utils.StateFile) : Utils.StateFile * Z :=
  match upload_new_videos_to_release w f with
  | Ok f' => (f', 0%Z)
  | Raise _ => (f, 1%Z)
  end.

End Upload.

(** ** scripts/download_audio.py *)

Module Download.

(** An entry of a flat playlist: [None], or a dictionary.  [e_more] tells
    whether the dictionary has keys besides the three that are read. *)
Record EntryDict := {
  e_id : option string;
  e_title : option string;
  e_upload_date : option string;
  e_more : bool;
}.

Inductive Entry :=
| Unavailable
| Info (d : EntryDict).

(** What [ydl.extract_info(playlist_url, download=False)] returned, when it
    is a dictionary that is not empty. *)
Record PlaylistInfo := {
  p_type : option string;
  p_entries : option (list Entry);
  p_id : option string;
  p_title : option string;
  p_upload_date : option string;
}.

(** What [ydl.extract_info(video_url, download=False)] returned. *)
Record VideoInfo := {
  i_title : option string;
  i_description : option string;
  i_upload_date : option string;
}.

(** The dictionaries built by [fetch_playlist_videos]. *)
Record PlaylistVideo := {
  pv_video_id : string;
  pv_title : string;
  pv_url : string;
  pv_upload_date : option string;
}.

(** What one run of the script reads from its environment.  The answers
    about a video depend on the arguments of the call; the clock is read
    per item: [utcnow idx 0] inside [parse_upload_date], [utcnow idx 1] for
    [processed_date]. *)
Record World := {
  env_PLAYLIST_URL : option string;
  cookies_file_exists : bool;
  (** [None]: yt-dlp returned [None] or an empty dictionary *)
  extract_playlist : string -> option PlaylistInfo;
  (** [download_video_audio(video_url, video_id, downloads_dir)] *)
  download_video_audio : string -> string -> bool;
  (** [None]: [extract_info] raised *)
  extract_video : string -> option VideoInfo;
  downloads_dir : string;
  (** [mp3_file.exists()] *)
  mp3_exists : string -> bool;
  (** [int(MP3(path).info.length)], [None] when it raises *)
  mp3_length : string -> option Z;
  (** [os.path.getsize] *)
  getsize : string -> Z;
  utcnow : nat -> nat -> datetime;
  (** the clock when [main] saves the state *)
  utcnow_save : datetime;
}.

Definition get_base_ydl_opts_prints (w : World) : list string :=
  if cookies_file_exists w
  then ["Using YouTube cookies from /tmp/yt_cookies.txt"]
  else ["No cookies file found - YouTube may block downloads from CI"].

Definition get_playlist_url (w : World) : result string :=
  if truthy (env_PLAYLIST_URL w)
  then Ok (default "" (env_PLAYLIST_URL w))
  else Raise ValueError.

Definition watch_url (id : string) : string :=
  "https://www.youtube.com/watch?v=" ++ id.

(** [if entry:] is false for [None] and for the empty dictionary. *)
Definition entry_truthy (e : Entry) : bool :=
  match e with
  | Unavailable => false
  | Info d =>
      present (e_id d) || present (e_title d)
      || present (e_upload_date d) || e_more d
  end.

(** [entry['id']] raises [KeyError] when the key is missing. *)
Definition entry_video (d : EntryDict) : result PlaylistVideo :=
  match e_id d with
  | None => Raise KeyError
  | Some id =>
      Ok {| pv_video_id := id;
            pv_title := default "Unknown Title" (e_title d);
            pv_url := watch_url id;
            pv_upload_date := e_upload_date d |}
  end.

(** The loop [for entry in entries] of [fetch_playlist_videos]. *)
Fixpoint collect_videos (entries : list Entry) (videos : list PlaylistVideo)
  : result (list PlaylistVideo) :=
  match entries with
  | [] => Ok videos
  | entry :: rest =>
      if entry_truthy entry then
        match entry with
        | Info d =>
            v ← entry_video d;
            collect_videos rest (app videos [v])
        | Unavailable => collect_videos rest videos
        end
      else collect_videos rest videos
  end.

Definition count (n : nat) : string :=
  NilZero.string_of_uint (Nat.to_uint n).

(** [fetch_playlist_videos]: the lines it prints, and its result. *)
Definition fetch_playlist_videos (w : World) (playlist_url : string)
  : list string * result (list PlaylistVideo) :=
  let out0 := app (get_base_ydl_opts_prints w)
                  ["Fetching playlist metadata from: " ++ playlist_url] in
  match extract_playlist w playlist_url with
  | None => (out0, Raise RuntimeError)
  | Some playlist_info =>
      if negb (bool_decide (p_type playlist_info = Some "playlist"))
         && negb (present (p_entries playlist_info)) then
        let out1 :=
          app out0
            ["Warning: URL appears to be a single video, not a playlist";
             "  Type: " ++ default "unknown" (p_type playlist_info);
             "  Title: " ++ default "unknown" (p_title playlist_info)] in
        if truthy (p_id playlist_info) then
          let id := default "" (p_id playlist_info) in
          (out1, Ok [{| pv_video_id := id;
                        pv_title := default "Unknown Title" (p_title playlist_info);
                        pv_url := watch_url id;
                        pv_upload_date := p_upload_date playlist_info |}])
        else (out1, Raise RuntimeError)
      else
        let entries := default [] (p_entries playlist_info) in
        let out1 :=
          app out0
            ["Playlist title: " ++ default "unknown" (p_title playlist_info);
             "Raw entries count: " ++ count (List.length entries)] in
        match collect_videos entries [] with
        | Raise e => (out1, Raise e)
        | Ok [] => (out1, Raise RuntimeError)
        | Ok videos =>
            (app out1 ["Found " ++ count (List.length videos)
                       ++ " videos in playlist"],
             Ok videos)
        end
  end.

(** [None] is a missing or null [upload_date]. *)
Definition parse_upload_date (now : datetime) (upload_date : option string)
  : datetime :=
  if negb (truthy upload_date) then now
  else
    let s := default "" upload_date in
    if negb (String.length s =? 8)%nat then now
    else match strptime_Ymd s with
         | Some dt => dt
         | None => now
         end.

Record Metadata := {
  m_title : string;
  m_description : string;
  m_upload_date : option string;
}.

Definition get_full_video_metadata (w : World) (video_url : string)
  : Metadata :=
  match extract_video w video_url with
  | Some info =>
      {| m_title := default "Unknown Title" (i_title info);
         m_description := default "" (i_description info);
         m_upload_date := i_upload_date info |}
  | None =>
      {| m_title := "Unknown Title";
         m_description := "";
         m_upload_date := None |}
  end.

Definition mp3_file (w : World) (video_id : string) : string :=
  downloads_dir w ++ "/" ++ video_id ++ ".mp3".

(** One iteration of [for idx, video in enumerate(new_videos, 1)]: the
    record that is appended to [newly_processed], if any. *)
Definition process_video (w : World) (idx : nat) (video : PlaylistVideo)
  : option Video :=
  let video_id := pv_video_id video in
  let video_url := pv_url video in
  if negb (download_video_audio w video_url video_id) then None
  else
    let full_metadata := get_full_video_metadata w video_url in
    let mp3 := mp3_file w video_id in
    if negb (mp3_exists w mp3) then None
    else
      let duration := Utils.get_audio_duration (mp3_length w) mp3 in
      let file_size := getsize w mp3 in
      let pub_date := parse_upload_date (utcnow w idx 0) (pv_upload_date video) in
      Some {| video_id := video_id;
              title := m_title full_metadata;
              description := Some (m_description full_metadata);
              processed_date := isoformat (utcnow w idx 1) ++ "Z";
              pub_date := Some (isoformat pub_date ++ "Z");
              duration := duration;
              file_size := file_size;
              file_path := Some mp3;
              release_tag := None;
              audio_url := None |}.

Fixpoint process_loop (w : World) (idx : nat) (new_videos : list PlaylistVideo)
    (newly_processed : list Video) : list Video :=
  match new_videos with
  | [] => newly_processed
  | video :: rest =>
      match process_video w idx video with
      | Some video_info =>
          process_loop w (S idx) rest (app newly_processed [video_info])
      | None => process_loop w (S idx) rest newly_processed
      end
  end.

(** [[v for v in playlist_videos if v['video_id'] not in processed_ids]] *)
Definition new_videos (processed_ids : gset string)
    (playlist_videos : list PlaylistVideo) : list PlaylistVideo :=
  filter (fun v => pv_video_id v ∉ processed_ids) playlist_videos.

Definition process_new_videos (w : World) (f : Utils.StateFile)
  : result (list Video) :=
  playlist_url ← get_playlist_url w;
  processed_ids ← Utils.get_processed_video_ids f;
  playlist_videos ← (fetch_playlist_videos w playlist_url).2;
  Ok (process_loop w 1 (new_videos processed_ids playlist_videos) []).

(** The body of [main], before its [except]. *)
Definition run (w : World) (f : Utils.StateFile) : result Utils.StateFile :=
  newly_processed ← process_new_videos w f;
  match newly_processed with
  | [] => Ok f
  | _ :: _ =>
      state ← Utils.load_state f;
      let all_videos := app (videos state) newly_processed in
      Ok (Utils.save_state (isoformat (utcnow_save w)) all_videos f)
  end.

Definition main (w : World) (f : Utils.StateFile) : Utils.StateFile * Z :=
  match run w f with
  | Ok f' => (f', 0%Z)
  | Raise _ => (f, 1%Z)
  end.

End Download.


(** ** scripts/generate_rss.py *)

Module Rss.

(** An entry of the feed, as [add_episode_to_feed] fills it in. *)
Record Episode := {
  ep_id : string;
  ep_title : string;
  ep_description : string;
  ep_enclosure_url : string;
  ep_enclosure_length : string;
  ep_pub_date : datetime;
  ep_duration : string;
  ep_summary : string;
}.

Record World := {
  (** [config/podcast_config.yaml]: [None] when the file does not exist,
      else the mapping it holds *)
  podcast_config : option (gmap string string);
  (** [datetime.fromisoformat]; [None] when it raises [ValueError] *)
  fromisoformat : string -> option datetime;
  (** [create_feed_generator(config)]: the exception that the calls of
      feedgen raise for this configuration, [None] when they return *)
  feed_generator_error : gmap string string -> option exn;
  (** [feed_dir.mkdir(...)] and [fg.rss_file(...)]: the exception raised
      when the feed with these entries is written, [None] when the file is
      written *)
  rss_file_error : list Episode -> option exn;
}.

Definition required_fields : list string :=
  ["title"; "description"; "author"; "language"; "link"].

Definition load_podcast_config (w : World) : result (gmap string string) :=
  match podcast_config w with
  | None => Raise OSError
  | Some config =>
      match filter (fun field => config !! field = None) required_fields with
      | [] => Ok config
      | _ :: _ => Raise ValueError
      end
  end.

(** [[
    if len(description) > 500:
        description = description[:497] + '...'
    ]] *)
Definition truncate_description (description : string) : string :=
  if (500 <? String.length description)%nat
  then substring 0 497 description ++ "..."
  else description.

(** The date of the episode: [pub_date], or [processed_date] when
    [pub_date] is missing ([KeyError]) or does not parse ([ValueError]). *)
Definition episode_date (w : World) (video : Video) : result datetime :=
  let fallback :=
    match fromisoformat w (replace_Z (processed_date video)) with
    | Some processed_date => Ok processed_date
    | None => Raise ValueError
    end in
  match pub_date video with
  | None => fallback
  | Some s =>
      match fromisoformat w (replace_Z s) with
      | Some pub_date => Ok pub_date
      | None => fallback
      end
  end.

(** The feed [fg] is the list of its entries in the order in which
    [fg.rss_file] writes them.  [fg.add_entry()] puts the new entry at the
    beginning of the feed: that is the default, [order='prepend'], of
    feedgen's [add_entry]. *)
Definition add_episode_to_feed (w : World) (fg : list Episode) (video : Video)
  : result (list Episode) :=
  if negb (truthy (audio_url video)) then Ok fg
  else
    date ← episode_date w video;
    Ok ({| ep_id := video_id video;
           ep_title := title video;
           ep_description :=
             truncate_description (default "" (description video));
           ep_enclosure_url := default "" (audio_url video);
           ep_enclosure_length :=
             NilZero.string_of_int (Z.to_int (file_size video));
           ep_pub_date := date;
           ep_duration := duration video;
           ep_summary := title video |} :: fg).

(** [v.get('pub_date', v.get('processed_date', ''))] *)
Definition sort_key (v : Video) : string :=
  default (processed_date v) (pub_date v).

(** [uploaded_videos.sort(key=..., reverse=True)].  The sort of Python is
    stable, also with [reverse=True]: videos with equal keys keep their
    order.  The result of a stable sort is determined by its input; it is
    computed here by insertion. *)
Fixpoint insert_newest_first (v : Video) (sorted : list Video) : list Video :=
  match sorted with
  | [] => [v]
  | u :: rest =>
      if String.ltb (sort_key v) (sort_key u)
      then u :: insert_newest_first v rest
      else v :: u :: rest
  end.

Definition sort_newest_first (l : list Video) : list Video :=
  foldr insert_newest_first [] l.

(** [[v for v in videos if v.get('audio_url')]] *)
Definition uploaded (videos : list Video) : list Video :=
  filter (fun v => truthy (audio_url v)) videos.

(** The videos in the order in which [generate_rss_feed] hands them to
    [add_episode_to_feed]. *)
Definition feed_order (videos : list Video) : list Video :=
  sort_newest_first (uploaded videos).

Fixpoint add_episodes (w : World) (fg : list Episode) (videos : list Video)
  : result (list Episode) :=
  match videos with
  | [] => Ok fg
  | video :: rest =>
      fg' ← add_episode_to_feed w fg video;
      add_episodes w fg' rest
  end.

(** [create_feed_generator(config)]: a feed without entries. *)
Definition create_feed_generator (w : World) (config : gmap string string)
  : result (list Episode) :=
  match feed_generator_error w config with
  | None => Ok []
  | Some e => Raise e
  end.

(** [feed_dir.mkdir(parents=True, exist_ok=True)] and
    [fg.rss_file(str(feed_file), pretty=True)]: the entries of the file
    that is written. *)
Definition rss_file (w : World) (fg : list Episode) : result (list Episode) :=
  match rss_file_error w fg with
  | None => Ok fg
  | Some e => Raise e
  end.

(** [generate_rss_feed]: the entries of [feed/podcast.xml], in the order of
    the file. *)
Definition generate_rss_feed (w : World) (f : Utils.StateFile)
  : result (list Episode) :=
  config ← load_podcast_config w;
  state ← Utils.load_state f;
  let uploaded_videos := feed_order (videos state) in
  fg ← create_feed_generator w config;
  fg ← add_episodes w fg uploaded_videos;
  rss_file w fg.

End Rss.

(** * Specification *)

(** ** The pipeline: runs of the scripts, one after the other *)

Module Pipeline.

Inductive Stage :=
| Ingest (w : Download.World)      (* [python -m scripts.download_audio] *)
| Publish (w : Upload.World).      (* [python -m scripts.upload_to_release] *)

Definition stage_run (f : Utils.StateFile) (s : Stage) : Utils.StateFile :=
  match s with
  | Ingest w => (Download.main w f).1
  | Publish w => (Upload.main w f).1
  end.

Definition pipeline (stages : list Stage) (f : Utils.StateFile)
  : Utils.StateFile :=
  foldl stage_run f stages.

(** The records a script finds in the state file. *)
Definition stored_videos (f : Utils.StateFile) : list Video :=
  match Utils.load_state f with
  | Ok state => videos state
  | Raise _ => []
  end.

(** [audio_url] is set exactly when [release_tag] is. *)
Definition set_together (v : Video) : Prop :=
  audio_url v = None ↔ release_tag v = None.

Definition published (v : Video) : Prop :=
  truthy (audio_url v).

(** What a run of the upload script does to a record: nothing, or it gives
    an unpublished record its URL and its release. *)
Inductive touched (v : Video) : Video -> Prop :=
| touched_kept : touched v v
| touched_assigned url tag :
    ¬ published v -> url ≠ "" -> touched v (with_release v url tag).

(** What a sequence of runs does to the list of records: the records it
    held stay in place, each as it was or published; records are added at
    the end. *)
Definition evolves (l l' : list Video) : Prop :=
  ∃ l1 l2, l' = app l1 l2 ∧ Forall2 touched l l1.


End Pipeline.

(** ** The release batcher *)

Module UploadSpec.
Import Upload.

Definition total (sizes : list Z) : Z := foldr Z.add 0%Z sizes.

(** The sizes of a batch are listed newest first: before each upload the
    batch was still below the limit. *)
Fixpoint checked_before (sizes : list Z) : Prop :=
  match sizes with
  | [] => True
  | _ :: earlier =>
      (total earlier < MAX_RELEASE_SIZE_ceil)%Z ∧ checked_before earlier
  end.

(** A batch that was left for a newer one had reached the limit. *)
Definition sealed (b : Batch) : Prop :=
  (MAX_RELEASE_SIZE_ceil <= total b.2)%Z.

Definition loop_inv (st : Loop) : Prop :=
  Forall (fun b : Batch => checked_before b.2) (history st) ∧
  match history st with
  | [] => current_release st = None
  | (tag, sizes) :: older =>
      current_release st = Some tag ∧
      current_size st = total sizes ∧
      Forall sealed older
  end.

(** The capacity of the specification, [C] = 1.8 * 1024^3 bytes, on
    integer sizes. *)
Definition within_capacity (b : Batch) : Prop :=
  (10 * total b.2 <= 18 * 1024 * 1024 * 1024)%Z.

End UploadSpec.

(** ** The playlist *)

Module DownloadSpec.
Import Download.

(** The dictionary that [fetch_playlist_videos] builds from an entry. *)
Definition listed (e : Entry) : option PlaylistVideo :=
  match e with
  | Unavailable => None
  | Info d =>
      match entry_video d with
      | Ok v => Some v
      | Raise _ => None
      end
  end.

Definition has_id (e : Entry) : Prop :=
  match e with
  | Unavailable => False
  | Info d => e_id d ≠ None
  end.

(** A video that the download script turns into a record: the download
    succeeds and leaves the MP3 file. *)
Definition ingestible (w : World) (v : PlaylistVideo) : bool :=
  download_video_audio w (pv_url v) (pv_video_id v)
  && mp3_exists w (mp3_file w (pv_video_id v)).

Definition ids_of (videos : list Video) : gset string :=
  list_to_set (video_id <$> videos).

(** No record of the state has the id of the item. *)
Definition unseen (videos : list Video) (v : PlaylistVideo) : Prop :=
  ∀ r, r ∈ videos → video_id r ≠ pv_video_id v.

(** The lines [fetch_playlist_videos] prints before it reads the entries
    of a playlist. *)
Definition fetch_prints (w : World) (playlist_url : string)
    (info : PlaylistInfo) (entries : list Entry) : list string :=
  app (get_base_ydl_opts_prints w)
    ["Fetching playlist metadata from: " ++ playlist_url;
     "Playlist title: " ++ default "unknown" (p_title info);
     "Raw entries count: " ++ count (List.length entries)].

End DownloadSpec.

(** ** The order of the feed *)

Module RssSpec.
Import Rss.

(** The order in which the feed is sorted: the keys as strings. *)
Definition key_not_below (u v : Video) : Prop :=
  String.ltb (sort_key u) (sort_key v) = false.

(** The videos of a list that have a given key, in their order. *)
Definition with_key (k : string) (l : list Video) : list Video :=
  filter (fun v => sort_key v = k) l.

End RssSpec.

(** * Concrete runs *)

(** ** The scenario of the specification: two unpublished records, [A] of
    500 MB and [B] of 2000 MB; every upload succeeds. *)

Module Scenario.
Import Upload.

Definition record (id : string) (size : Z) : Video :=
  {| video_id := id;
     title := "Episode " ++ id;
     description := Some "";
     processed_date := "2024-01-01T10:00:00.000001Z";
     pub_date := Some "2023-12-31T00:00:00Z";
     duration := "00:10:00";
     file_size := size;
     file_path := Some ("downloads/" ++ id ++ ".mp3");
     release_tag := None;
     audio_url := None |}.

Definition MB : Z := 1024 * 1024.
Definition video_A : Video := record "A" (500 * MB).
Definition video_B : Video := record "B" (2000 * MB).

Definition world : World :=
  {| env_GITHUB_TOKEN := Some "token";
     env_GITHUB_REPOSITORY := Some "owner/repo";
     path_exists := fun _ _ => true;
     st_size := fun _ path =>
       if String.eqb path "downloads/A.mp3" then (500 * MB)%Z
       else (2000 * MB)%Z;
     utcnow := fun idx =>
       {| year := 2024; month := 1; day := 1;
          hour := 10; minute := 0; second := Z.of_nat idx;
          microsecond := 640000 |};
     create_git_release := fun _ _ => true;
     upload_asset := fun _ tag path =>
       Some ("https://example.org/" ++ tag ++ "/" ++ path);
     utcnow_save :=
       {| year := 2024; month := 1; day := 1;
          hour := 10; minute := 0; second := 5; microsecond := 1 |} |}.


Definition published_A : Video :=
  with_release video_A
    "https://example.org/release-2024-01-01-100001/downloads/A.mp3"
    "release-2024-01-01-100001".

Definition published_B : Video :=
  with_release video_B
    "https://example.org/release-2024-01-01-100001/downloads/B.mp3"
    "release-2024-01-01-100001".

Definition final : Loop :=
  {| objs := [published_A; published_B];
     current_release := Some "release-2024-01-01-100001";
     current_size := (2500 * MB)%Z;
     history := [("release-2024-01-01-100001", [2000 * MB; 500 * MB]%Z)] |}.

Definition before : Utils.StateFile :=
  Utils.Document {| last_updated := Some "2024-01-01T10:00:00.000002Z";
                    videos := [video_A; video_B] |}.


Definition after : Utils.StateFile :=
  Utils.Document {| last_updated := Some "2024-01-01T10:00:05.000001Z";
                    videos := [published_A; published_B] |}.

End Scenario.

(** ** A playlist with an unavailable entry and a video listed twice *)

Module Listing.
Import Download.

Definition entry (id : string) (upload_date : option string) : Entry :=
  Info {| e_id := Some id;
          e_title := Some ("Talk " ++ id);
          e_upload_date := upload_date;
          e_more := true |}.

(** An entry without an [id]. *)
Definition nameless : Entry :=
  Info {| e_id := None;
          e_title := Some "Talk ?";
          e_upload_date := None;
          e_more := true |}.

Definition playlist (entries : list Entry) : PlaylistInfo :=
  {| p_type := Some "playlist";
     p_entries := Some entries;
     p_id := Some "PL1";
     p_title := Some "Talks";
     p_upload_date := None |}.

Definition clock (idx k : nat) : datetime :=
  {| year := 2024; month := 1; day := 1;
     hour := 10; minute := Z.of_nat idx; second := Z.of_nat k;
     microsecond := 250000 |}.

(** Every download succeeds; the MP3 of ["x"] cannot be parsed. *)
Definition world (entries : list Entry) : World :=
  {| env_PLAYLIST_URL := Some "https://www.youtube.com/playlist?list=PL1";
     cookies_file_exists := false;
     extract_playlist := fun _ => Some (playlist entries);
     download_video_audio := fun _ _ => true;
     extract_video := fun _ =>
       Some {| i_title := Some "A talk";
               i_description := Some "About things.";
               i_upload_date := Some "20231231" |};
     downloads_dir := "/repo/downloads";
     mp3_exists := fun _ => true;
     mp3_length := fun path =>
       if String.eqb path "/repo/downloads/x.mp3" then None else Some 3725%Z;
     getsize := fun _ => 1000%Z;
     utcnow := clock;
     utcnow_save := clock 9 0 |}.

Definition entries : list Entry :=
  [entry "x" (Some "20231231"); Unavailable; entry "x" (Some "20231231");
   entry "y" None].


(** The same, with a clock that stands still. *)
Definition steady (entries : list Entry) : World :=
  {| env_PLAYLIST_URL := env_PLAYLIST_URL (world entries);
     cookies_file_exists := cookies_file_exists (world entries);
     extract_playlist := extract_playlist (world entries);
     download_video_audio := download_video_audio (world entries);
     extract_video := extract_video (world entries);
     downloads_dir := downloads_dir (world entries);
     mp3_exists := mp3_exists (world entries);
     mp3_length := mp3_length (world entries);
     getsize := getsize (world entries);
     utcnow := fun _ _ => clock 1 1;
     utcnow_save := clock 9 0 |}.

Definition video_x : PlaylistVideo :=
  {| pv_video_id := "x";
     pv_title := "Talk x";
     pv_url := "https://www.youtube.com/watch?v=x";
     pv_upload_date := Some "20231231" |}.

Definition video_y : PlaylistVideo :=
  {| pv_video_id := "y";
     pv_title := "Talk y";
     pv_url := "https://www.youtube.com/watch?v=y";
     pv_upload_date := None |}.

Definition record_x (idx : nat) : Video :=
  {| video_id := "x";
     title := "A talk";
     description := Some "About things.";
     processed_date := isoformat (clock idx 1) ++ "Z";
     pub_date := Some "2023-12-31T00:00:00Z";
     duration := "00:00:00";
     file_size := 1000;
     file_path := Some "/repo/downloads/x.mp3";
     release_tag := None;
     audio_url := None |}.

Definition record_y (idx : nat) : Video :=
  {| video_id := "y";
     title := "A talk";
     description := Some "About things.";
     processed_date := isoformat (clock idx 1) ++ "Z";
     pub_date := Some (isoformat (clock idx 0) ++ "Z");
     duration := "01:02:05";
     file_size := 1000;
     file_path := Some "/repo/downloads/y.mp3";
     release_tag := None;
     audio_url := None |}.

Definition ingested : Utils.StateFile :=
  Utils.Document
    {| last_updated := Some (isoformat (clock 9 0) ++ "Z");
       videos := [record_x 1; record_x 2; record_y 3] |}.

End Listing.

(** ** Feeds *)

Module Feed.

Fixpoint number (s : string) (acc : Z) : option Z :=
  match s with
  | EmptyString => Some acc
  | String c s' => d ← digit_value c; number s' (10 * acc + d)%Z
  end.

(** [datetime.fromisoformat] on the strings the scripts write, after
    [replace('Z', '+00:00')]: [YYYY-MM-DDTHH:MM:SS+00:00], with [.ffffff]
    after the seconds when the microseconds are not zero.  The empty string
    is rejected, as Python rejects it. *)
Definition parse_utc (s : string) : option datetime :=
  let plain := (String.length s =? 25)%nat in
  let fraction := (String.length s =? 32)%nat in
  if negb (plain || fraction) then None
  else if negb (String.eqb (substring 4 1 s) "-"
                && String.eqb (substring 7 1 s) "-"
                && String.eqb (substring 10 1 s) "T"
                && String.eqb (substring 13 1 s) ":"
                && String.eqb (substring 16 1 s) ":"
                && (if plain then String.eqb (substring 19 6 s) "+00:00"
                    else String.eqb (substring 19 1 s) "."
                         && String.eqb (substring 26 6 s) "+00:00"))
  then None
  else
    y ← number (substring 0 4 s) 0;
    m ← number (substring 5 2 s) 0;
    d ← number (substring 8 2 s) 0;
    h ← number (substring 11 2 s) 0;
    mi ← number (substring 14 2 s) 0;
    sec ← number (substring 17 2 s) 0;
    us ← (if plain then Some 0%Z else number (substring 20 6 s) 0);
    if ((1 <=? y) && (1 <=? m) && (m <=? 12)
        && (1 <=? d) && (d <=? days_in_month y m)
        && (h <? 24) && (mi <? 60) && (sec <? 60))%Z
    then Some {| year := y; month := m; day := d; hour := h;
                 minute := mi; second := sec; microsecond := us |}
    else None.

Definition config : gmap string string :=
  list_to_map [("title", "Talks"); ("description", "Talks, as audio");
               ("author", "The speakers"); ("language", "en");
               ("link", "https://example.org/")].

Definition world : Rss.World :=
  {| Rss.podcast_config := Some config;
     Rss.fromisoformat := parse_utc;
     Rss.feed_generator_error := fun _ => None;
     Rss.rss_file_error := fun _ => None |}.

Definition episode (id : string) (processed pub : string) : Video :=
  {| video_id := id;
     title := "Talk " ++ id;
     description := Some "About things.";
     processed_date := processed;
     pub_date := Some pub;
     duration := "01:02:05";
     file_size := 1000;
     file_path := Some ("/repo/downloads/" ++ id ++ ".mp3");
     release_tag := Some "release-2025-06-01-120000";
     audio_url := Some ("https://example.org/" ++ id ++ ".mp3") |}.

(** A record whose [pub_date] does not parse, found in June 2025, and a
    record published on 1 January 2024. *)
Definition undated : Video :=
  episode "u" "2025-06-01T12:00:00.250000Z" "".
Definition dated : Video :=
  episode "d" "2025-06-01T12:00:09.250000Z" "2024-01-01T00:00:00Z".

(** A record published on 1 June 2024, as the download script writes it
    for the upload date [20240601]. *)
Definition first_of_june : datetime :=
  {| year := 2024; month := 6; day := 1;
     hour := 0; minute := 0; second := 0; microsecond := 0 |}.
Definition later : Video :=
  episode "j" "2025-06-01T12:00:19.250000Z"
    (isoformat (Download.parse_upload_date first_of_june (Some "20240601"))
     ++ "Z").

(** Two publication dates within one second, as the download script
    writes them: midnight from the upload date [20240101], and the clock
    half a second later for a video without upload date. *)
Definition midnight : datetime :=
  {| year := 2024; month := 1; day := 1;
     hour := 0; minute := 0; second := 0; microsecond := 0 |}.
Definition half_past : datetime :=
  {| year := 2024; month := 1; day := 1;
     hour := 0; minute := 0; second := 0; microsecond := 500000 |}.

Definition at_midnight : Video :=
  episode "m" "2024-01-02T08:00:00.250000Z"
    (isoformat (Download.parse_upload_date half_past (Some "20240101")) ++ "Z").
Definition at_half_past : Video :=
  episode "h" "2024-01-01T00:00:00.500100Z"
    (isoformat (Download.parse_upload_date half_past None) ++ "Z").

Definition long_description : string :=
  string_of_list_ascii (replicate 600 "a"%char).
Definition short_description : string :=
  string_of_list_ascii (replicate 400 "a"%char).

End Feed.

(** ** Checks run over a bounded range *)

Module Checks.
Import Utils.

(** The two characters of [format_02d n] for [n] below 100, as a check. *)
Definition two_digits (n : Z) : bool :=
  match format_02d n with
  | String a (String b EmptyString) =>
      match digit_value a, digit_value b with
      | Some p, Some q => (10 * p + q =? n)%Z
      | _, _ => false
      end
  | _ => false
  end.

(** Whether the character occurs in the string. *)
Fixpoint has_char (c : ascii) (s : string) : bool :=
  match s with
  | EmptyString => false
  | String a s' => Ascii.eqb a c || has_char c s'
  end.

(** What a run of the upload script has made of a record, given the
    releases [h] it used: nothing, or a record with a URL that is not empty
    and the tag of one of the releases. *)
Definition recorded (h : list Upload.Batch) (v v' : Video) : Prop :=
  v' = v ∨
  ∃ url tag, url ≠ "" ∧ tag ∈ h.*1 ∧ v' = with_release v url tag.

(** The fields that the upload script leaves alone. *)
Definition same_item (v v' : Video) : Prop :=
  video_id v' = video_id v ∧ title v' = title v ∧
  description v' = description v ∧
  processed_date v' = processed_date v ∧ pub_date v' = pub_date v ∧
  duration v' = duration v ∧ file_size v' = file_size v ∧
  file_path v' = file_path v.

(** The tag of the release is that of a reading of the clock. *)
Definition stamped (w : Upload.World) (b : Upload.Batch) : Prop :=
  ∃ idx, b.1 = "release-" ++ strftime_stamp (Upload.utcnow w idx).

(** The characters of [zpad 2 n], read as digits, give [n] back. *)
Definition pad2_reads_back (n : Z) : bool :=
  match zpad 2 n with
  | String a (String b EmptyString) =>
      match digit_value a, digit_value b with
      | Some p, Some q => (10 * p + q =? n)%Z
      | _, _ => false
      end
  | _ => false
  end.

(** Midnight of a day of the calendar, in the years 1 to 9999. *)
Definition midnight_of (y m d : Z) : datetime :=
  {| year := y; month := m; day := d;
     hour := 0; minute := 0; second := 0; microsecond := 0 |}.

Definition calendar_day (y m d : Z) : Prop :=
  (1 <= y <= 9999)%Z ∧ (1 <= m <= 12)%Z ∧ (1 <= d <= days_in_month y m)%Z.

(** The digit [k], below ten, before the digits [rest]. *)
Definition digit (k : N) (rest : Decimal.uint) : Decimal.uint :=
  match k with
  | 0 => Decimal.D0 rest
  | 1 => Decimal.D1 rest
  | 2 => Decimal.D2 rest
  | 3 => Decimal.D3 rest
  | 4 => Decimal.D4 rest
  | 5 => Decimal.D5 rest
  | 6 => Decimal.D6 rest
  | 7 => Decimal.D7 rest
  | 8 => Decimal.D8 rest
  | _ => Decimal.D9 rest
  end%N.

(** The number [n] in [w] digits, the first one first. *)
Fixpoint fixed_width (w : nat) (n : N) : Decimal.uint :=
  match w with
  | O => Decimal.Nil
  | S w' =>
      digit (n / 10 ^ N.of_nat w')
        (fixed_width w' (n mod 10 ^ N.of_nat w'))
  end%N.

(** The number that digits stand for, after the number [acc]. *)
Fixpoint value (d : Decimal.uint) (acc : N) : N :=
  match d with
  | Decimal.Nil => acc
  | Decimal.D0 l => value l (10 * acc)
  | Decimal.D1 l => value l (10 * acc + 1)
  | Decimal.D2 l => value l (10 * acc + 2)
  | Decimal.D3 l => value l (10 * acc + 3)
  | Decimal.D4 l => value l (10 * acc + 4)
  | Decimal.D5 l => value l (10 * acc + 5)
  | Decimal.D6 l => value l (10 * acc + 6)
  | Decimal.D7 l => value l (10 * acc + 7)
  | Decimal.D8 l => value l (10 * acc + 8)
  | Decimal.D9 l => value l (10 * acc + 9)
  end%N.

(** The fields of a [datetime] are in the ranges of the calendar and of
    the clock, the year in four digits. *)
Definition clock_reading (dt : datetime) : Prop :=
  (0 <= year dt <= 9999)%Z ∧ (1 <= month dt <= 12)%Z ∧
  (1 <= day dt <= 31)%Z ∧ (0 <= hour dt <= 23)%Z ∧
  (0 <= minute dt <= 59)%Z ∧ (0 <= second dt <= 59)%Z ∧
  (0 <= microsecond dt <= 999999)%Z.

(** The string is the time [dt] as the download script writes it:
    [dt.isoformat() + "Z"], with a fraction of the second when
    [fraction] is [true] and without it otherwise. *)
Definition written_as (fraction : bool) (dt : datetime) (s : string) : Prop :=
  clock_reading dt ∧
  negb (microsecond dt =? 0)%Z = fraction ∧
  s = isoformat dt ++ "Z".

(** The records of the feed in the order of their entries in the file:
    each entry is put before those that are there. *)
Definition written_order (videos : list Video) : list Video :=
  reverse (Rss.feed_order videos).

(** The episode that [add_episode_to_feed] makes of a record. *)
Definition episode_of (w : Rss.World) (v : Video) (ep : Rss.Episode) : Prop :=
  Rss.ep_id ep = video_id v ∧
  Rss.ep_title ep = title v ∧
  Rss.ep_summary ep = title v ∧
  Rss.ep_duration ep = duration v ∧
  Some (Rss.ep_enclosure_url ep) = audio_url v ∧
  Rss.ep_description ep
  = Rss.truncate_description (default "" (description v)) ∧
  (String.length (Rss.ep_description ep) <= 500)%nat ∧
  Rss.episode_date w v = Ok (Rss.ep_pub_date ep).

(** Neither date of the record can be read: [pub_date] is missing or is
    refused by [fromisoformat], and [processed_date] is refused. *)
Definition undated (w : Rss.World) (v : Video) : Prop :=
  Rss.fromisoformat w (replace_Z (processed_date v)) = None ∧
  match pub_date v with
  | None => True
  | Some s => Rss.fromisoformat w (replace_Z s) = None
  end.

End Checks.

(** * Proofs *)

(** ** The model on examples *)

Module Examples.

Lemma strptime_examples :
  strptime_Ymd "20240229"
  = Some {| year := 2024; month := 2; day := 29;
            hour := 0; minute := 0; second := 0; microsecond := 0 |} ∧
  strptime_Ymd "20230229" = None ∧
  strptime_Ymd "2024-1-1" = None ∧
  strptime_Ymd "202401 5"
  = Some {| year := 2024; month := 1; day := 5;
            hour := 0; minute := 0; second := 0; microsecond := 0 |}.
Proof. repeat split; reflexivity. Qed.

Lemma isoformat_examples :
  isoformat Feed.midnight = "2024-01-01T00:00:00" ∧
  isoformat Feed.half_past = "2024-01-01T00:00:00.500000" ∧
  strftime_stamp (Listing.clock 7 3) = "2024-01-01-100703" ∧
  replace_Z "2024-01-01T00:00:00Z" = "2024-01-01T00:00:00+00:00".
Proof. repeat split; reflexivity. Qed.

Lemma get_repo_info_examples :
  Upload.get_repo_info Scenario.world = Ok ("owner", "repo") ∧
  Upload.split_char "/" "a/b/c" = ["a"; "b"; "c"] ∧
  Upload.split_char "/" "" = [""].
Proof. repeat split; reflexivity. Qed.

Lemma parse_upload_date_examples :
  Download.parse_upload_date Feed.half_past (Some "20240101") = Feed.midnight ∧
  Download.parse_upload_date Feed.half_past (Some "2024011") = Feed.half_past ∧
  Download.parse_upload_date Feed.half_past (Some "") = Feed.half_past ∧
  Download.parse_upload_date Feed.half_past None = Feed.half_past.
Proof. repeat split; reflexivity. Qed.

End Examples.

(** ** The release batcher *)

Module UploadFacts.
Import Upload UploadSpec.

Lemma size_limit_reached_true n :
  size_limit_reached n = true ↔ (MAX_RELEASE_SIZE_ceil <= n)%Z.
Proof. unfold size_limit_reached. apply Z.leb_le. Qed.

Lemma size_limit_reached_false n :
  size_limit_reached n = false ↔ (n < MAX_RELEASE_SIZE_ceil)%Z.
Proof. unfold size_limit_reached. apply Z.leb_gt. Qed.

(** The limit written in the source is 1.8 * 1024^3; on integers the test
    against it is the test against [MAX_RELEASE_SIZE_ceil]. *)
Lemma size_limit_reached_tenths n :
  size_limit_reached n = true ↔ (18 * 1024 * 1024 * 1024 <= 10 * n)%Z.
Proof. rewrite size_limit_reached_true. unfold MAX_RELEASE_SIZE_ceil. lia. Qed.

Lemma loop_inv_start videos : loop_inv (start videos).
Proof. split; [constructor | reflexivity]. Qed.

Lemma upload_step_inv w idx ref st st' :
  loop_inv st → upload_step w idx ref st = Ok st' → loop_inv st'.
Proof.
  intros [Hchk Hcur] Hstep. unfold upload_step in Hstep.
  destruct (objs st !! ref) as [video|]; [|by simplify_eq].
  destruct (path_exists w idx (the_file_path video)); simpl in Hstep;
    [|by simplify_eq].
  unfold get_or_create_release, create_release in Hstep.
  destruct (history st) as [|[tag sizes] older] eqn:Hh.
  - (* no release yet: one is created *)
    rewrite Hcur in Hstep.
    destruct (create_git_release w idx _); simpl in Hstep; [|done].
    destruct (truthy _); simplify_eq; split; simpl;
      repeat constructor; simpl; unfold MAX_RELEASE_SIZE_ceil; lia.
  - destruct Hcur as (Hrel & Hsize & Hsealed). rewrite Hrel in Hstep.
    apply Forall_cons in Hchk as [Hc Hchk]. simpl in Hc.
    destruct (size_limit_reached (current_size st)) eqn:Hlim.
    + (* the limit is reached: the batch is sealed, a release is created *)
      apply size_limit_reached_true in Hlim.
      destruct (create_git_release w idx _); simpl in Hstep; [|done].
      assert (Hs : Forall sealed ((tag, sizes) :: older)).
      { constructor; [unfold sealed; simpl; lia | done]. }
      destruct (truthy _); simplify_eq; split; simpl;
        repeat first [exact Hs | assumption | constructor]; simpl;
        unfold MAX_RELEASE_SIZE_ceil; lia.
    + (* below the limit: the current release is kept *)
      apply size_limit_reached_false in Hlim. simpl in Hstep.
      destruct (truthy _); simplify_eq; split; simpl;
        repeat constructor; simpl; try done; lia.
Qed.

Lemma upload_loop_inv w refs : ∀ idx st st',
  loop_inv st → upload_loop w idx refs st = Ok st' → loop_inv st'.
Proof.
  induction refs as [|ref refs IH]; intros idx st st' Hinv Hrun; simpl in Hrun.
  - by simplify_eq.
  - destruct (upload_step w idx ref st) as [st1|] eqn:Hstep; [|done].
    simpl in Hrun. eapply IH; [|exact Hrun].
    eapply upload_step_inv; eauto.
Qed.

Lemma checked_before_alone sizes first :
  checked_before sizes → last sizes = Some first →
  (MAX_RELEASE_SIZE_ceil <= first)%Z → sizes = [first].
Proof.
  intros Hc Hlast Hbig. destruct sizes as [|s1 earlier]; [done|].
  destruct earlier as [|s2 earlier]; [by simplify_eq/=|].
  exfalso. revert s1 s2 Hc Hlast.
  induction earlier as [|s3 earlier IH]; intros s1 s2 Hc Hlast.
  - simpl in *. simplify_eq. lia.
  - apply (IH s2 s3).
    + destruct Hc as [_ Hc]. exact Hc.
    + exact Hlast.
Qed.

Lemma upload_step_publishes w idx ref st video release size created url :
  objs st !! ref = Some video →
  path_exists w idx (the_file_path video) = true →
  get_or_create_release w idx (current_release st) (current_size st)
    = Ok (release, size, created) →
  upload_asset w idx release (the_file_path video) = Some url →
  url ≠ "" →
  ∃ st', upload_step w idx ref st = Ok st' ∧
         objs st' !! ref = Some (with_release video url release).
Proof.
  intros Hobj Hex Hrel Hup Hurl. unfold upload_step, upload_file_to_release.
  rewrite Hobj, Hex, Hrel. simpl. rewrite Hup. simpl.
  destruct (String.eqb_spec url "") as [|_]; [done|]. simpl.
  eexists. split; [reflexivity|]. simpl.
  apply list_lookup_insert_eq. by eapply lookup_lt_Some.
Qed.

Lemma scenario_run :
  upload_all Scenario.world [Scenario.video_A; Scenario.video_B]
    = Ok Scenario.final.
Proof. vm_compute. reflexivity. Qed.

(** C1, as stated, fails: the batch holding the 500 MB asset receives the
    2000 MB asset as well and ends at 2500 MB, above the capacity. *)
Lemma C1_batch_exceeds_capacity :
  ∃ st, upload_all Scenario.world [Scenario.video_A; Scenario.video_B] = Ok st ∧
        history st
          = [("release-2024-01-01-100001", [2097152000; 524288000]%Z)] ∧
        ¬ Forall within_capacity (history st).
Proof.
  exists Scenario.final. split; [exact scenario_run|].
  split; [reflexivity|].
  intros H. apply Forall_cons in H as [H _].
  unfold within_capacity in H. vm_compute in H. by apply H.
Qed.

(** C1, amended: the check precedes every upload and looks at the bytes
    accumulated so far only.  In every run: each asset went to a release
    whose cumulative size was below the limit before that upload (so the
    cumulative size without the last asset is below the limit); a release
    that was left for a newer one had reached the limit; an asset at or
    above the limit that is the first of its release stays alone in it; and
    an upload is never refused for its size. *)
Theorem C1_capacity_checked_before_upload w videos st :
  upload_all w videos = Ok st →
  Forall (fun b : Batch => checked_before b.2) (history st) ∧
  Forall (fun b : Batch => (total (tail b.2) < MAX_RELEASE_SIZE_ceil)%Z)
    (history st) ∧
  Forall sealed (tail (history st)) ∧
  (∀ tag sizes first,
      (tag, sizes) ∈ history st → last sizes = Some first →
      (MAX_RELEASE_SIZE_ceil <= first)%Z → sizes = [first]) ∧
  (∀ idx ref st0 video release size created url,
      objs st0 !! ref = Some video →
      path_exists w idx (the_file_path video) = true →
      get_or_create_release w idx (current_release st0) (current_size st0)
        = Ok (release, size, created) →
      upload_asset w idx release (the_file_path video) = Some url →
      url ≠ "" →
      ∃ st1, upload_step w idx ref st0 = Ok st1 ∧
             objs st1 !! ref = Some (with_release video url release)).
Proof.
  intros Hrun.
  destruct (upload_loop_inv _ _ _ _ _ (loop_inv_start videos) Hrun)
    as [Hchk Hcur].
  split; [exact Hchk|]. split; [|split; [|split]].
  - eapply Forall_impl; [exact Hchk|].
    intros [tag [|s earlier]] Hc; simpl in *;
      [unfold MAX_RELEASE_SIZE_ceil; lia | tauto].
  - destruct (history st) as [|[tag sizes] older]; [constructor|].
    simpl. tauto.
  - intros tag sizes first Hin Hlast Hbig.
    rewrite Forall_forall in Hchk.
    eapply checked_before_alone; eauto. exact (Hchk _ Hin).
  - intros. eapply upload_step_publishes; eauto.
Qed.

Lemma C1_capacity_checked_before_upload_witness :
  upload_all Scenario.world [Scenario.video_A; Scenario.video_B]
    = Ok Scenario.final ∧
  Forall (fun b : Batch => (total (tail b.2) < MAX_RELEASE_SIZE_ceil)%Z)
    (history Scenario.final).
Proof.
  split; [vm_compute; reflexivity|].
  apply (C1_capacity_checked_before_upload Scenario.world
           [Scenario.video_A; Scenario.video_B] Scenario.final).
  vm_compute; reflexivity.
Defined.

(** *** What a run does to the records *)

Import Pipeline.

Lemma truthy_Some url : truthy (Some url) = true ↔ url ≠ "".
Proof.
  simpl. destruct (String.eqb_spec url ""); simpl; split; congruence.
Qed.

Lemma published_with_release v url tag :
  url ≠ "" → published (with_release v url tag).
Proof.
  intros Hurl. unfold published. simpl.
  apply Is_true_true. by apply truthy_Some.
Qed.

Lemma touched_published v v' : touched v v' → published v → v' = v.
Proof. intros [|url tag Hnot _] Hpub; [done | by destruct Hnot]. Qed.

Lemma touched_trans v1 v2 v3 : touched v1 v2 → touched v2 v3 → touched v1 v3.
Proof.
  intros H12 H23. destruct H12 as [|url tag Hnot Hurl]; [done|].
  rewrite (touched_published _ _ H23); [by constructor|].
  by apply published_with_release.
Qed.

Lemma Forall2_touched_refl l : Forall2 touched l l.
Proof. apply Forall_Forall2_diag, Forall_forall. intros; constructor. Qed.

Lemma Forall2_touched_trans l1 l2 l3 :
  Forall2 touched l1 l2 → Forall2 touched l2 l3 → Forall2 touched l1 l3.
Proof.
  intros H12. revert l3. induction H12 as [|x y l k Hxy _ IH]; intros l3 H23.
  - by inversion H23.
  - inversion H23 as [|? z ? k3 Hyz Hk]; subst. constructor.
    + by eapply touched_trans.
    + by apply IH.
Qed.

Lemma Forall2_touched_insert l i v v' :
  l !! i = Some v → touched v v' → Forall2 touched l (<[i:=v']> l).
Proof.
  intros Hi Hv. rewrite <- (list_insert_id l i v Hi) at 1.
  apply Forall2_insert; [apply Forall2_touched_refl | exact Hv].
Qed.

Lemma needs_upload_spec objs ref :
  needs_upload objs ref ↔ ∃ v, objs !! ref = Some v ∧ ¬ published v.
Proof.
  unfold needs_upload, published. destruct (objs !! ref) as [v|]; simpl.
  - rewrite negb_True. split; [eauto | by intros (? & [= <-] & ?)].
  - split; [done | by intros (? & ? & _)].
Qed.

Lemma upload_step_touched w idx ref st st' :
  needs_upload (objs st) ref →
  upload_step w idx ref st = Ok st' →
  Forall2 touched (objs st) (objs st') ∧
  (∀ i, i ≠ ref → objs st' !! i = objs st !! i).
Proof.
  intros (v & Hv & Hnot)%needs_upload_spec Hstep.
  unfold upload_step in Hstep. rewrite Hv in Hstep.
  destruct (negb _); [simplify_eq; split; [apply Forall2_touched_refl | done]|].
  destruct (get_or_create_release _ _ _ _) as [[[release size] created]|];
    simpl in Hstep; [|done].
  unfold upload_file_to_release in Hstep.
  destruct (upload_asset w idx release (the_file_path v)) as [url|] eqn:Hup;
    simpl in Hstep.
  - destruct (String.eqb_spec url "") as [|Hurl]; simpl in Hstep;
      simplify_eq; simpl.
    + split; [apply Forall2_touched_refl | done].
    + split.
      * eapply Forall2_touched_insert; [exact Hv | by constructor].
      * intros i Hi. by apply list_lookup_insert_ne.
  - simplify_eq. split; [apply Forall2_touched_refl | done].
Qed.

Lemma upload_loop_touched w refs : ∀ idx st st',
  NoDup refs →
  (∀ r, r ∈ refs → needs_upload (objs st) r) →
  upload_loop w idx refs st = Ok st' →
  Forall2 touched (objs st) (objs st').
Proof.
  induction refs as [|ref refs IH]; intros idx st st' Hnd Hneed Hrun;
    simpl in Hrun.
  - simplify_eq. apply Forall2_touched_refl.
  - apply NoDup_cons in Hnd as [Hnotin Hnd].
    destruct (upload_step w idx ref st) as [st1|] eqn:Hstep; [|done].
    simpl in Hrun.
    destruct (upload_step_touched _ _ _ _ _
                (Hneed ref ltac:(left)) Hstep) as [Ht Hother].
    eapply Forall2_touched_trans; [exact Ht|].
    eapply IH; [exact Hnd | | exact Hrun].
    intros r Hr. unfold needs_upload. rewrite Hother.
    + apply (Hneed r). by right.
    + intros ->. done.
Qed.

Lemma videos_to_upload_spec videos ref :
  ref ∈ videos_to_upload videos ↔ needs_upload videos ref.
Proof.
  unfold videos_to_upload. rewrite list_elem_of_filter, elem_of_seq.
  split; [tauto|]. intros H. split; [done|].
  apply needs_upload_spec in H as (v & Hv & _).
  apply lookup_lt_Some in Hv. lia.
Qed.

Lemma upload_all_touched w videos st :
  upload_all w videos = Ok st → Forall2 touched videos (objs st).
Proof.
  intros Hrun. change videos with (objs (start videos)) at 1.
  eapply upload_loop_touched; [| |exact Hrun].
  - apply NoDup_filter, NoDup_seq.
  - intros r Hr. simpl. by apply videos_to_upload_spec.
Qed.


Lemma upload_main_touched w f :
  Forall2 touched (stored_videos f) (stored_videos (Upload.main w f).1).
Proof.
  unfold Upload.main, upload_new_videos_to_release.
  destruct (get_github_token w); simpl; [|apply Forall2_touched_refl].
  destruct (get_repo_info w); simpl; [|apply Forall2_touched_refl].
  destruct (Utils.load_state f) as [state|] eqn:Hload; simpl;
    [|apply Forall2_touched_refl].
  destruct (videos_to_upload (videos state)); [apply Forall2_touched_refl|].
  destruct (upload_all w (videos state)) as [st|] eqn:Hrun; simpl;
    [|apply Forall2_touched_refl].
  unfold stored_videos. rewrite Hload. simpl.
  by eapply upload_all_touched.
Qed.


End UploadFacts.
(** ** The download script *)

Module DownloadFacts.
Import Download DownloadSpec Pipeline.

Lemma listing_fetch :
  fetch_playlist_videos (Listing.world Listing.entries)
    "https://www.youtube.com/playlist?list=PL1"
  = (["No cookies file found - YouTube may block downloads from CI";
      "Fetching playlist metadata from: https://www.youtube.com/playlist?list=PL1";
      "Playlist title: Talks";
      "Raw entries count: 4";
      "Found 3 videos in playlist"],
     Ok [Listing.video_x; Listing.video_x; Listing.video_y]).
Proof. vm_compute. reflexivity. Qed.

Lemma listing_run :
  Download.run (Listing.world Listing.entries) Utils.Absent
  = Ok Listing.ingested.
Proof. vm_compute. reflexivity. Qed.

(** *** The entries of the playlist *)

Lemma collect_videos_info d entries videos :
  collect_videos (Info d :: entries) videos
  = if entry_truthy (Info d)
    then v ← entry_video d; collect_videos entries (app videos [v])
    else collect_videos entries videos.
Proof. reflexivity. Qed.

Lemma entry_truthy_id d id : e_id d = Some id → entry_truthy (Info d) = true.
Proof. intros H. simpl. by rewrite H. Qed.

Lemma collect_videos_ok entries : ∀ videos,
  Forall (fun e => entry_truthy e → has_id e) entries →
  collect_videos entries videos = Ok (app videos (omap listed entries)).
Proof.
  induction entries as [|e entries IH]; intros videos Hall.
  - simpl. by rewrite app_nil_r.
  - apply Forall_cons in Hall as [He Hall].
    destruct e as [|d]; [by apply IH|].
    rewrite collect_videos_info. cbn [omap list_omap listed].
    unfold entry_video in *.
    destruct (e_id d) as [id|] eqn:Hid.
    + rewrite (entry_truthy_id _ _ Hid). simpl.
      rewrite IH by done. by rewrite <- app_assoc.
    + destruct (entry_truthy (Info d)); [|by apply IH].
      specialize (He I). simpl in He. by rewrite Hid in He.
Qed.

Lemma collect_videos_key_error entries : ∀ videos,
  Exists (fun e => entry_truthy e ∧ ¬ has_id e) entries →
  collect_videos entries videos = Raise KeyError.
Proof.
  induction entries as [|e entries IH]; intros videos Hex.
  - by apply Exists_nil in Hex.
  - apply Exists_cons in Hex.
    destruct e as [|d].
    + destruct Hex as [[[] _]|Hex]. by apply IH.
    + rewrite collect_videos_info. unfold entry_video.
      destruct (e_id d) as [id|] eqn:Hid.
      * rewrite (entry_truthy_id _ _ Hid). simpl.
        destruct Hex as [[_ Hno]|Hex]; [|by apply IH].
        destruct Hno. simpl. by rewrite Hid.
      * destruct (entry_truthy (Info d)); [done|].
        destruct Hex as [[[] _]|Hex]. by apply IH.
Qed.

Lemma omap_listed_falsy entries :
  Forall (fun e => ¬ entry_truthy e) entries → omap listed entries = [].
Proof.
  induction 1 as [|e entries He _ IH]; [done|]. simpl.
  destruct e as [|d]; simpl; [done|]. unfold entry_video.
  destruct (e_id d) eqn:Hid; [|done].
  destruct He. simpl. by rewrite Hid.
Qed.

(** *** The items that become records *)

Lemma process_video_ingestible w idx v :
  ingestible w v = true →
  process_video w idx v
  = Some {| video_id := pv_video_id v;
            title := m_title (get_full_video_metadata w (pv_url v));
            description :=
              Some (m_description (get_full_video_metadata w (pv_url v)));
            processed_date := isoformat (utcnow w idx 1) ++ "Z";
            pub_date :=
              Some (isoformat (parse_upload_date (utcnow w idx 0)
                                 (pv_upload_date v)) ++ "Z");
            duration :=
              Utils.get_audio_duration (mp3_length w)
                (mp3_file w (pv_video_id v));
            file_size := getsize w (mp3_file w (pv_video_id v));
            file_path := Some (mp3_file w (pv_video_id v));
            release_tag := None;
            audio_url := None |}.
Proof.
  unfold ingestible, process_video. intros [-> ->]%andb_true_iff. done.
Qed.

Lemma process_video_skipped w idx v :
  ingestible w v = false → process_video w idx v = None.
Proof.
  unfold ingestible, process_video. intros [->| ->]%andb_false_iff; [done|].
  by destruct (download_video_audio _ _ _).
Qed.

Lemma process_video_id w idx v r :
  process_video w idx v = Some r →
  ingestible w v = true ∧ video_id r = pv_video_id v ∧
  release_tag r = None ∧ audio_url r = None.
Proof.
  destruct (ingestible w v) eqn:Hi.
  - rewrite (process_video_ingestible _ _ _ Hi). by intros [= <-].
  - by rewrite (process_video_skipped _ _ _ Hi).
Qed.

Lemma process_loop_acc w l : ∀ idx acc,
  process_loop w idx l acc = app acc (process_loop w idx l []).
Proof.
  induction l as [|v l IH]; intros idx acc; simpl.
  - by rewrite app_nil_r.
  - destruct (process_video w idx v) as [r|]; [|apply IH].
    rewrite (IH _ (app acc [r])), (IH _ (app [] [r])).
    by rewrite <- app_assoc.
Qed.

Lemma process_loop_ids w l : ∀ idx,
  video_id <$> process_loop w idx l []
  = pv_video_id <$> filter (fun v => ingestible w v) l.
Proof.
  induction l as [|v l IH]; intros idx; simpl; [done|].
  destruct (ingestible w v) eqn:Hi.
  - rewrite (process_video_ingestible _ _ _ Hi), process_loop_acc.
    rewrite filter_cons_True by by rewrite Hi.
    rewrite fmap_app, IH. done.
  - rewrite (process_video_skipped _ _ _ Hi).
    rewrite filter_cons_False by (rewrite Hi; exact id).
    apply IH.
Qed.


Lemma process_loop_fresh w l : ∀ idx,
  Forall (fun r => release_tag r = None ∧ audio_url r = None)
    (process_loop w idx l []).
Proof.
  induction l as [|v l IH]; intros idx; simpl; [constructor|].
  destruct (process_video w idx v) as [r|] eqn:Hv; [|apply IH].
  rewrite process_loop_acc. apply Forall_app. split; [|apply IH].
  apply process_video_id in Hv as (_ & _ & ? & ?). by repeat constructor.
Qed.

Lemma fetch_playlist_entries w url info entries :
  extract_playlist w url = Some info →
  p_entries info = Some entries →
  fetch_playlist_videos w url
  = match collect_videos entries [] with
    | Raise e => (fetch_prints w url info entries, Raise e)
    | Ok [] => (fetch_prints w url info entries, Raise RuntimeError)
    | Ok videos =>
        (app (fetch_prints w url info entries)
           ["Found " ++ count (List.length videos) ++ " videos in playlist"],
         Ok videos)
    end.
Proof.
  intros Hinfo Hentries. unfold fetch_playlist_videos, fetch_prints.
  rewrite Hinfo, Hentries. simpl. rewrite andb_false_r.
  destruct (collect_videos entries []) as [[|v videos]|e];
    by rewrite <- ?app_assoc.
Qed.

Lemma fetch_error_is_fatal w f url e :
  get_playlist_url w = Ok url →
  (fetch_playlist_videos w url).2 = Raise e →
  Download.main w f = (f, 1%Z).
Proof.
  intros Hurl Hfetch.
  unfold Download.main, Download.run, process_new_videos.
  rewrite Hurl. simpl.
  destruct (Utils.get_processed_video_ids f); simpl; [|done].
  by rewrite Hfetch.
Qed.

(** C8, as stated, fails: a playlist entry without an id makes the fetch
    raise [KeyError]; nothing is returned and the run ends with status 1. *)
Lemma C8_entry_without_id_is_fatal :
  fetch_playlist_videos
    (Listing.world [Listing.nameless; Listing.entry "y" None])
    "https://www.youtube.com/playlist?list=PL1"
  = (["No cookies file found - YouTube may block downloads from CI";
      "Fetching playlist metadata from: https://www.youtube.com/playlist?list=PL1";
      "Playlist title: Talks";
      "Raw entries count: 2"],
     Raise KeyError) ∧
  Download.main (Listing.world [Listing.nameless; Listing.entry "y" None])
    Utils.Absent
  = (Utils.Absent, 1%Z).
Proof. split; vm_compute; reflexivity. Qed.

(** C8, amended: an unavailable entry of the playlist ([None], or an empty
    dictionary) is dropped without a line of output, and the entries that
    remain are returned in their order, as long as each of them has an id
    and at least one remains.  An entry that is not empty and has no id makes
    the fetch raise [KeyError]; a playlist of which nothing remains makes it
    raise [RuntimeError]. *)
Theorem C8_unavailable_entries_are_dropped w url info entries :
  extract_playlist w url = Some info →
  p_entries info = Some entries →
  (Forall (fun e => entry_truthy e → has_id e) entries →
   omap listed entries ≠ [] →
   fetch_playlist_videos w url
   = (app (fetch_prints w url info entries)
        ["Found " ++ count (List.length (omap listed entries))
         ++ " videos in playlist"],
      Ok (omap listed entries))) ∧
  (∀ before after,
      omap listed (app before (Unavailable :: after))
      = omap listed (app before after)) ∧
  (Exists (fun e => entry_truthy e ∧ ¬ has_id e) entries →
   fetch_playlist_videos w url
   = (fetch_prints w url info entries, Raise KeyError)) ∧
  (Forall (fun e => ¬ entry_truthy e) entries →
   fetch_playlist_videos w url
   = (fetch_prints w url info entries, Raise RuntimeError)) ∧
  (∀ f e,
      get_playlist_url w = Ok url →
      (fetch_playlist_videos w url).2 = Raise e →
      Download.main w f = (f, 1%Z)).
Proof.
  intros Hinfo Hentries.
  split; [|split; [|split; [|split]]];
    [| | | |intros f e; apply fetch_error_is_fatal];
    rewrite ?(fetch_playlist_entries _ _ _ _ Hinfo Hentries).
  - intros Hids Hsome. rewrite collect_videos_ok by done. simpl.
    by destruct (omap listed entries).
  - intros before after. by rewrite !omap_app.
  - intros Hex. by rewrite collect_videos_key_error.
  - intros Hnone. rewrite collect_videos_ok.
    + by rewrite omap_listed_falsy.
    + eapply Forall_impl; [exact Hnone|]. intros e Hn Ht. by destruct Hn.
Qed.

Lemma C8_unavailable_entries_are_dropped_witness :
  fetch_playlist_videos (Listing.world Listing.entries)
    "https://www.youtube.com/playlist?list=PL1"
  = (["No cookies file found - YouTube may block downloads from CI";
      "Fetching playlist metadata from: https://www.youtube.com/playlist?list=PL1";
      "Playlist title: Talks";
      "Raw entries count: 4";
      "Found 3 videos in playlist"],
     Ok [Listing.video_x; Listing.video_x; Listing.video_y]).
Proof.
  apply (C8_unavailable_entries_are_dropped (Listing.world Listing.entries)
           "https://www.youtube.com/playlist?list=PL1"
           (Listing.playlist Listing.entries) Listing.entries
           eq_refl eq_refl).
  - repeat constructor; simpl; done.
  - simpl. done.
Defined.

(** *** The new videos *)

Lemma elem_of_ids_of videos id :
  id ∈ ids_of videos ↔ ∃ r, r ∈ videos ∧ video_id r = id.
Proof.
  unfold ids_of. rewrite elem_of_list_to_set, list_elem_of_fmap.
  split; intros (r & ? & ?); exists r; done.
Qed.

Lemma unseen_spec videos v : pv_video_id v ∉ ids_of videos ↔ unseen videos v.
Proof.
  rewrite elem_of_ids_of. unfold unseen. split.
  - intros Hno r Hr Heq. apply Hno. eauto.
  - intros Hun (r & Hr & Heq). by apply (Hun r).
Qed.

(** C4, as stated, fails: a video that the playlist lists twice is new
    twice, and a record is made of each occurrence. *)
Lemma C4_duplicates_are_kept :
  new_videos (ids_of []) [Listing.video_x; Listing.video_x; Listing.video_y]
  = [Listing.video_x; Listing.video_x; Listing.video_y] ∧
  process_new_videos (Listing.world Listing.entries) Utils.Absent
  = Ok [Listing.record_x 1; Listing.record_x 2; Listing.record_y 3].
Proof. split; vm_compute; reflexivity. Qed.

(** C4, amended: the new videos are the items of the listing whose id no
    record of the state has, in the order of the listing; each item is
    decided on its own, so an id that the listing holds twice is kept
    twice. *)
Theorem C4_new_videos_are_the_unseen_items
    (videos : list Video) (playlist_videos : list PlaylistVideo) :
  new_videos (ids_of videos) playlist_videos `sublist_of` playlist_videos ∧
  (∀ v, v ∈ new_videos (ids_of videos) playlist_videos
        ↔ v ∈ playlist_videos ∧ unseen videos v) ∧
  (∀ v rest, unseen videos v →
      new_videos (ids_of videos) (v :: rest)
      = v :: new_videos (ids_of videos) rest) ∧
  (∀ v rest, ¬ unseen videos v →
      new_videos (ids_of videos) (v :: rest)
      = new_videos (ids_of videos) rest).
Proof.
  unfold new_videos. split; [apply sublist_filter|]. split; [|split].
  - intros v. rewrite list_elem_of_filter, unseen_spec. tauto.
  - intros v rest Hv. rewrite filter_cons_True; [done|]. by apply unseen_spec.
  - intros v rest Hv. rewrite filter_cons_False; [done|].
    by rewrite unseen_spec.
Qed.

(** *** Running the script twice *)







(** *** The duration of a file that cannot be read *)

Lemma format_hms_examples :
  Utils.format_hms 3725 = "01:02:05" ∧
  Utils.format_hms 0 = "00:00:00" ∧
  Utils.format_hms 360000 = "100:00:00".
Proof. repeat split; reflexivity. Qed.



End DownloadFacts.
(** ** The feed *)

Module RssFacts.
Import Rss.

(** *** The description *)

Lemma length_append (s1 s2 : string) :
  String.length (s1 ++ s2) = String.length s1 + String.length s2.
Proof. induction s1 as [|c s1 IH]; simpl; [done | by rewrite IH]. Qed.

Lemma length_substring_0 (s : string) : ∀ n : nat,
  (n <= String.length s)%nat → String.length (substring 0 n s) = n.
Proof.
  induction s as [|c s IH]; intros [|n] Hn; simpl in *; try done; try lia.
  rewrite IH; lia.
Qed.

(** C6: a description of more than 500 characters is rendered as its first
    497 characters followed by three dots, 500 characters in all; a shorter
    one is rendered as it is. *)
Theorem C6_description_is_truncated (text : string) :
  ((500 < String.length text)%nat →
   truncate_description text = substring 0 497 text ++ "..." ∧
   String.length (truncate_description text) = 500) ∧
  ((String.length text <= 500)%nat → truncate_description text = text) ∧
  (∀ w fg video fg',
      description video = Some text →
      truthy (audio_url video) = true →
      add_episode_to_feed w fg video = Ok fg' →
      ∃ episode, fg' = episode :: fg ∧
                 ep_description episode = truncate_description text).
Proof.
  unfold truncate_description. split; [|split].
  - intros Hlong. apply Nat.ltb_lt in Hlong as Hb. rewrite Hb.
    split; [done|]. rewrite length_append, length_substring_0; simpl; lia.
  - intros Hshort. apply Nat.ltb_ge in Hshort. by rewrite Hshort.
  - intros w fg video fg' Htext Hurl Hadd. unfold add_episode_to_feed in Hadd.
    rewrite Hurl, Htext in Hadd. simpl in Hadd.
    destruct (episode_date w video) as [date|]; simpl in Hadd; [|done].
    injection Hadd as <-. eexists. split; reflexivity.
Qed.

Lemma C6_description_is_truncated_witness :
  String.length (truncate_description Feed.long_description) = 500 ∧
  truncate_description Feed.short_description = Feed.short_description.
Proof.
  split.
  - apply (C6_description_is_truncated Feed.long_description).
    apply Nat.ltb_lt. vm_compute. reflexivity.
  - apply (C6_description_is_truncated Feed.short_description).
    apply Nat.leb_le. vm_compute. reflexivity.
Defined.

(** *** The dates the examples use *)

Lemma parse_examples :
  Feed.parse_utc (replace_Z "") = None ∧
  Feed.parse_utc (replace_Z "2024-01-01T00:00:00Z") = Some Feed.midnight ∧
  Feed.parse_utc (replace_Z "2024-01-01T00:00:00.500000Z")
    = Some Feed.half_past ∧
  pub_date Feed.at_midnight = Some "2024-01-01T00:00:00Z" ∧
  pub_date Feed.at_half_past = Some "2024-01-01T00:00:00.500000Z".
Proof. repeat split; vm_compute; reflexivity. Qed.

(** *** The order of the feed *)

Import RssSpec.

Lemma compare_refl s : String.compare s s = Eq.
Proof.
  induction s as [|c s IH]; simpl; [done|].
  unfold Ascii.compare. by rewrite N.compare_refl.
Qed.

Lemma ltb_irrefl s : String.ltb s s = false.
Proof. unfold String.ltb. by rewrite compare_refl. Qed.

Lemma ltb_asym s1 s2 : String.ltb s1 s2 = true → String.ltb s2 s1 = false.
Proof.
  unfold String.ltb. rewrite (String.compare_antisym s1 s2).
  by destruct (String.compare s2 s1).
Qed.

Lemma insert_newest_first_perm v l : insert_newest_first v l ≡ₚ v :: l.
Proof.
  induction l as [|u l IH]; simpl; [done|].
  destruct (String.ltb _ _); [|done].
  rewrite IH. apply Permutation_swap.
Qed.

Lemma sort_newest_first_perm l : sort_newest_first l ≡ₚ l.
Proof.
  induction l as [|v l IH]; simpl; [done|].
  by rewrite insert_newest_first_perm, IH.
Qed.

Lemma insert_newest_first_sorted v l :
  Sorted key_not_below l → Sorted key_not_below (insert_newest_first v l).
Proof.
  induction 1 as [|u l Hl IH Hhd]; simpl; [by repeat constructor|].
  destruct (String.ltb (sort_key v) (sort_key u)) eqn:Hlt.
  - constructor; [exact IH|].
    destruct Hhd as [|u' l' Hu']; simpl.
    + constructor. by apply ltb_asym.
    + destruct (String.ltb (sort_key v) (sort_key u')); constructor;
        [exact Hu' | by apply ltb_asym].
  - constructor; [by constructor | by constructor].
Qed.

Lemma sort_newest_first_sorted l : Sorted key_not_below (sort_newest_first l).
Proof.
  induction l as [|v l IH]; simpl; [constructor|].
  by apply insert_newest_first_sorted.
Qed.

Lemma insert_newest_first_with_key k v l :
  with_key k (insert_newest_first v l) = with_key k (v :: l).
Proof.
  unfold with_key. induction l as [|u l IH]; simpl; [done|].
  destruct (String.ltb (sort_key v) (sort_key u)) eqn:Hlt; [|done].
  rewrite (filter_cons _ u (insert_newest_first v l)), IH.
  rewrite !(filter_cons _ v), !(filter_cons _ u).
  destruct (decide (sort_key v = k)) as [Hv|]; [|done].
  destruct (decide (sort_key u = k)) as [Hu|]; [|done].
  rewrite Hv, Hu, ltb_irrefl in Hlt. done.
Qed.

Lemma sort_newest_first_stable k l :
  with_key k (sort_newest_first l) = with_key k l.
Proof.
  induction l as [|v l IH]; simpl; [done|].
  rewrite insert_newest_first_with_key. unfold with_key in *.
  by rewrite !(filter_cons _ v), IH.
Qed.

(** The feed holds the records that have an audio URL, sorted by their key
    as a string, greatest first; records with the same key keep the order
    of the state. *)
Lemma feed_order_spec videos :
  feed_order videos ≡ₚ filter (fun v => truthy (audio_url v)) videos ∧
  Sorted key_not_below (feed_order videos) ∧
  (∀ k, with_key k (feed_order videos)
        = with_key k (filter (fun v => truthy (audio_url v)) videos)).
Proof.
  unfold feed_order, uploaded. split; [apply sort_newest_first_perm|].
  split; [apply sort_newest_first_sorted|].
  intros k. apply sort_newest_first_stable.
Qed.

(** *** The episodes *)

Lemma truncate_description_length text :
  (String.length (truncate_description text) <= 500)%nat.
Proof.
  unfold truncate_description.
  destruct (500 <? String.length text)%nat eqn:Hlen.
  - apply Nat.ltb_lt in Hlen.
    rewrite length_append, length_substring_0 by lia. simpl. lia.
  - apply Nat.ltb_ge in Hlen. lia.
Qed.

Lemma episode_date_raises w v e :
  episode_date w v = Raise e ↔ e = ValueError ∧ Checks.undated w v.
Proof.
  unfold episode_date, Checks.undated.
  destruct (fromisoformat w (replace_Z (processed_date v))) as [dt|].
  - split; [|by intros [_ [? _]]].
    destruct (pub_date v) as [s|]; [|done].
    by destruct (fromisoformat w (replace_Z s)).
  - destruct (pub_date v) as [s|].
    + destruct (fromisoformat w (replace_Z s)).
      * split; [done | by intros [_ [_ ?]]].
      * split; [by intros [= <-] | by intros [-> _]].
    + split; [by intros [= <-] | by intros [-> _]].
Qed.

(** Each entry is put before the entries that are there: the feed holds
    the episodes in the reverse of the order of the calls. *)
Lemma add_episodes_made w l : ∀ fg fg',
  Forall (fun v => truthy (audio_url v)) l →
  add_episodes w fg l = Ok fg' →
  ∃ eps, fg' = app eps fg ∧ Forall2 (Checks.episode_of w) (reverse l) eps.
Proof.
  induction l as [|v l IH]; intros fg fg' Hall Hrun; simpl in Hrun.
  - injection Hrun as <-. by exists [].
  - apply Forall_cons in Hall as [Hv Hall].
    unfold add_episode_to_feed in Hrun.
    destruct (truthy (audio_url v)) eqn:Hurl; [|done]. simpl in Hrun.
    destruct (episode_date w v) as [date|] eqn:Hdate; simpl in Hrun; [|done].
    destruct (IH _ _ Hall Hrun) as (eps & -> & Heps).
    eexists (app eps [_]). split; [by rewrite <- app_assoc|].
    rewrite reverse_cons. apply Forall2_app; [done|].
    constructor; [|done].
    unfold Checks.episode_of. simpl.
    repeat (split; [done|]).
    split; [|split; [done|split; [apply truncate_description_length|done]]].
    destruct (audio_url v); [done|discriminate].
Qed.

Lemma add_episodes_raises w l : ∀ fg e,
  add_episodes w fg l = Raise e →
  e = ValueError ∧ ∃ v, v ∈ l ∧ truthy (audio_url v) ∧ Checks.undated w v.
Proof.
  induction l as [|v l IH]; intros fg e Hrun; simpl in Hrun; [done|].
  unfold add_episode_to_feed in Hrun.
  destruct (truthy (audio_url v)) eqn:Hurl; simpl in Hrun.
  - destruct (episode_date w v) as [date|e'] eqn:Hdate; simpl in Hrun.
    + destruct (IH _ _ Hrun) as (-> & u & Hu & Hrest).
      split; [done|]. exists u. split; [by apply list_elem_of_further|done].
    + injection Hrun as <-. apply episode_date_raises in Hdate as [-> Hun].
      split; [done|]. exists v. split; [apply list_elem_of_here|].
      by rewrite Hurl.
  - destruct (IH _ _ Hrun) as (-> & u & Hu & Hrest).
    split; [done|]. exists u. split; [by apply list_elem_of_further|done].
Qed.

Lemma add_episodes_undated w l v :
  v ∈ l → truthy (audio_url v) → Checks.undated w v →
  ∀ fg, add_episodes w fg l = Raise ValueError.
Proof.
  intros Hin Hurl Hun. induction l as [|u l IH]; intros fg.
  - by apply elem_of_nil in Hin.
  - simpl. destruct (add_episode_to_feed w fg u) as [fg'|e] eqn:Hu; simpl.
    + apply elem_of_cons in Hin as [->|Hin]; [|by apply IH].
      unfold add_episode_to_feed in Hu.
      destruct (truthy (audio_url u)); [|done]. simpl in Hu.
      destruct (episode_date w u) eqn:Hdate; [|done].
      assert (Hr : episode_date w u = Raise ValueError)
        by by apply episode_date_raises.
      congruence.
    + unfold add_episode_to_feed in Hu.
      destruct (negb _); [done|].
      destruct (episode_date w u) eqn:Hdate; simpl in Hu; [done|].
      injection Hu as <-. by apply episode_date_raises in Hdate as [-> _].
Qed.

Lemma feed_order_uploaded videos v :
  v ∈ feed_order videos ↔ v ∈ videos ∧ truthy (audio_url v).
Proof.
  destruct (feed_order_spec videos) as (Hperm & _).
  rewrite Hperm, list_elem_of_filter. tauto.
Qed.

(** What [generate_rss_feed] writes when it returns: the episodes of the
    sorted records, the last of them first. *)
Lemma generate_rss_feed_written w f feed :
  generate_rss_feed w f = Ok feed →
  ∃ state,
    Utils.load_state f = Ok state ∧
    Forall2 (Checks.episode_of w) (Checks.written_order (videos state)) feed.
Proof.
  unfold generate_rss_feed, create_feed_generator, rss_file. intros Hrun.
  destruct (load_podcast_config w) as [config|]; simpl in Hrun; [|done].
  destruct (Utils.load_state f) as [state|]; simpl in Hrun; [|done].
  exists state. split; [done|].
  destruct (feed_generator_error w config); simpl in Hrun; [done|].
  destruct (add_episodes w [] (feed_order (videos state))) as [fg|] eqn:Hadd;
    simpl in Hrun; [|done].
  destruct (rss_file_error w fg); [done|]. injection Hrun as <-.
  apply add_episodes_made in Hadd as (eps & -> & Heps).
  - by rewrite app_nil_r.
  - apply Forall_forall. intros v Hv.
    by apply feed_order_uploaded in Hv as [_ Hv].
Qed.

(** C5: the feed is not written newest first.  [generate_rss_feed] sorts
    the records that have an audio URL by their key, greatest first, and
    hands them to [add_episode_to_feed] in that order; each entry is put
    before the entries that are there, so the file lists the episodes in
    the reverse of the sorted order.  Of two records published on
    1 January and on 1 June 2024 the older one comes first in the file, and
    of two records with the same date the one that is later in the state
    comes first. *)
Theorem C5_feed_is_written_oldest_first :
  (∃ first second,
      generate_rss_feed Feed.world
        (Utils.Document {| last_updated := None;
                           videos := [Feed.dated; Feed.later] |})
      = Ok [first; second] ∧
      ep_id first = "d" ∧ ep_id second = "j" ∧
      ep_pub_date first = Feed.midnight ∧
      ep_pub_date second = Feed.first_of_june ∧
      (ordinal (ep_pub_date first) < ordinal (ep_pub_date second))%Z) ∧
  (∃ first second,
      generate_rss_feed Feed.world
        (Utils.Document {| last_updated := None;
                           videos := [Feed.dated; Feed.at_midnight] |})
      = Ok [first; second] ∧
      ep_id first = "m" ∧ ep_id second = "d" ∧
      ep_pub_date first = ep_pub_date second) ∧
  (∀ w f feed,
      generate_rss_feed w f = Ok feed →
      ∃ state,
        Utils.load_state f = Ok state ∧
        Forall2 (fun v episode =>
                   ep_id episode = video_id v ∧
                   episode_date w v = Ok (ep_pub_date episode))
          (reverse (feed_order (videos state))) feed) ∧
  (∀ videos,
      feed_order videos ≡ₚ uploaded videos ∧
      Sorted RssSpec.key_not_below (feed_order videos) ∧
      (∀ k, RssSpec.with_key k (feed_order videos)
            = RssSpec.with_key k (uploaded videos))).
Proof.
  split; [|split; [|split]].
  - eexists _, _. split; [vm_compute; reflexivity|].
    repeat split; vm_compute; reflexivity.
  - eexists _, _. split; [vm_compute; reflexivity|].
    repeat split; vm_compute; reflexivity.
  - intros w f feed Hrun.
    destruct (generate_rss_feed_written w f feed Hrun) as (state & Hload & Hf).
    exists state. split; [done|].
    eapply Forall2_impl; [exact Hf|].
    intros v episode Hv. unfold Checks.episode_of in Hv. tauto.
  - intros videos. apply feed_order_spec.
Qed.

End RssFacts.
(** ** The pipeline *)

Module PipelineFacts.
Import Pipeline UploadFacts DownloadFacts.

Lemma evolves_refl l : evolves l l.
Proof.
  exists l, []. split; [by rewrite app_nil_r | apply Forall2_touched_refl].
Qed.

Lemma evolves_trans l1 l2 l3 : evolves l1 l2 → evolves l2 l3 → evolves l1 l3.
Proof.
  intros (k1 & new1 & -> & H1) (k2 & new2 & -> & H2).
  apply Forall2_app_inv_l in H2 as (k1' & new1' & Hk & _ & ->).
  exists k1', (app new1' new2). split; [by rewrite app_assoc|].
  by eapply Forall2_touched_trans.
Qed.


(** The download script adds records at the end, none of them published. *)
Lemma download_main_appends w f :
  ∃ newly,
    stored_videos (Download.main w f).1 = app (stored_videos f) newly ∧
    Forall (fun r => release_tag r = None ∧ audio_url r = None) newly.
Proof.
  unfold Download.main, Download.run, Download.process_new_videos.
  assert (Hsame : ∃ newly : list Video,
             stored_videos f = app (stored_videos f) newly ∧
             Forall (fun r => release_tag r = None ∧ audio_url r = None) newly).
  { exists []. by rewrite app_nil_r. }
  destruct (Download.get_playlist_url w); simpl; [|done].
  unfold Utils.get_processed_video_ids.
  destruct (Utils.load_state f) as [state|] eqn:Hload; simpl; [|done].
  destruct (Download.fetch_playlist_videos w _).2 as [pl|]; simpl; [|done].
  pose proof (process_loop_fresh w
                (Download.new_videos (list_to_set (video_id <$> videos state)) pl)
                1) as Hfresh.
  destruct (Download.process_loop _ _ _ _) as [|r newly]; simpl; [done|].
  exists (r :: newly). split; [|done].
  unfold stored_videos. by rewrite Hload.
Qed.

Lemma stage_evolves f s :
  evolves (stored_videos f) (stored_videos (stage_run f s)).
Proof.
  destruct s as [w|w]; simpl.
  - destruct (download_main_appends w f) as (newly & -> & _).
    eexists _, _. split; [done | apply Forall2_touched_refl].
  - eexists _, []. split; [by rewrite app_nil_r | apply upload_main_touched].
Qed.

Lemma pipeline_evolves stages : ∀ f,
  evolves (stored_videos f) (stored_videos (pipeline stages f)).
Proof.
  induction stages as [|s stages IH]; intros f; simpl; [apply evolves_refl|].
  eapply evolves_trans; [apply stage_evolves | apply IH].
Qed.

(** *** URL and release *)

Lemma set_together_with_release v url tag :
  set_together (with_release v url tag).
Proof. unfold set_together. simpl. split; discriminate. Qed.

Lemma touched_set_together v v' :
  touched v v' → set_together v → set_together v'.
Proof. intros [|url tag _ _] Hv; [done | apply set_together_with_release]. Qed.

Lemma Forall2_touched_set_together l l' :
  Forall2 touched l l' → Forall set_together l → Forall set_together l'.
Proof.
  induction 1 as [|v v' l l' Hv _ IH]; intros Hall; [done|].
  apply Forall_cons in Hall as [Hhd Htl]. constructor; [|by apply IH].
  by eapply touched_set_together.
Qed.

Lemma upload_step_set_together w idx ref st st' :
  Forall set_together (Upload.objs st) →
  Upload.upload_step w idx ref st = Ok st' →
  Forall set_together (Upload.objs st').
Proof.
  intros Hall Hstep. unfold Upload.upload_step in Hstep.
  destruct (Upload.objs st !! ref) as [v|]; [|by simplify_eq].
  destruct (negb _); [by simplify_eq|].
  destruct (Upload.get_or_create_release _ _ _ _)
    as [[[release size] created]|]; simpl in Hstep; [|done].
  destruct (truthy _); simplify_eq; simpl; [|done].
  apply Forall_insert; [done | apply set_together_with_release].
Qed.

Lemma stage_set_together f s :
  Forall set_together (stored_videos f) →
  Forall set_together (stored_videos (stage_run f s)).
Proof.
  intros Hall. destruct s as [w|w]; simpl.
  - destruct (download_main_appends w f) as (newly & -> & Hnew).
    apply Forall_app. split; [done|].
    eapply Forall_impl; [exact Hnew|].
    intros r [Htag Hurl]. unfold set_together. by rewrite Htag, Hurl.
  - eapply Forall2_touched_set_together; [apply upload_main_touched | done].
Qed.

(** C9: in the state a sequence of runs leaves, as in the state it started
    from, a record has an audio URL exactly when it has a release tag.  The
    download script makes its records with neither; a step of the upload
    loop keeps the property of the records it holds in memory. *)
Theorem C9_url_and_release_are_set_together stages f :
  Forall set_together (stored_videos f) →
  Forall set_together (stored_videos (pipeline stages f)) ∧
  (∀ w idx v r,
      Download.process_video w idx v = Some r →
      audio_url r = None ∧ release_tag r = None) ∧
  (∀ w idx ref st st',
      Forall set_together (Upload.objs st) →
      Upload.upload_step w idx ref st = Ok st' →
      Forall set_together (Upload.objs st')).
Proof.
  intros Hall. split; [|split].
  - revert f Hall. induction stages as [|s stages IH]; intros f Hall; [done|].
    simpl. by apply IH, stage_set_together.
  - intros w idx v r Hr. by apply process_video_id in Hr as (_ & _ & ? & ?).
  - intros w idx ref st st'. apply upload_step_set_together.
Qed.

Lemma C9_url_and_release_are_set_together_witness :
  Forall set_together
    (stored_videos
       (pipeline [Ingest (Listing.world Listing.entries);
                  Publish Scenario.world] Utils.Absent)).
Proof.
  apply (C9_url_and_release_are_set_together
           [Ingest (Listing.world Listing.entries); Publish Scenario.world]
           Utils.Absent).
  simpl. constructor.
Defined.

(** *** Running the scripts again *)




End PipelineFacts.
(** ** The state file *)

Module StateFacts.
Import Utils Pipeline.

(** *** What the scripts save *)



(** The scripts see the state file through [load_state]: a file that loads
    as the empty state is to them as no file. *)
Lemma download_of_empty_state w f :
  load_state f = Ok empty_state →
  (Download.main w f).2 = (Download.main w Absent).2 ∧
  stored_videos (Download.main w f).1
  = stored_videos (Download.main w Absent).1.
Proof.
  intros Hload.
  unfold Download.main, Download.run, Download.process_new_videos,
    get_processed_video_ids.
  rewrite Hload. simpl.
  destruct (Download.get_playlist_url w); simpl;
    [|by unfold stored_videos; rewrite Hload].
  destruct (Download.fetch_playlist_videos w _).2; simpl;
    [|by unfold stored_videos; rewrite Hload].
  destruct (Download.process_loop _ _ _ _); simpl;
    [by unfold stored_videos; rewrite Hload|].
  done.
Qed.

Lemma upload_of_empty_state w f :
  load_state f = Ok empty_state →
  Upload.main w f = (f, (Upload.main w Absent).2).
Proof.
  intros Hload. unfold Upload.main, Upload.upload_new_videos_to_release.
  rewrite Hload. simpl.
  destruct (Upload.get_github_token w); simpl; [|done].
  by destruct (Upload.get_repo_info w).
Qed.

Lemma unreadable_state_is_fatal e :
  (∀ w, Download.main w (Unreadable e) = (Unreadable e, 1%Z)) ∧
  (∀ w, Upload.main w (Unreadable e) = (Unreadable e, 1%Z)).
Proof.
  split; intros w.
  - unfold Download.main, Download.run, Download.process_new_videos.
    by destruct (Download.get_playlist_url w).
  - unfold Upload.main, Upload.upload_new_videos_to_release.
    destruct (Upload.get_github_token w); simpl; [|done].
    by destruct (Upload.get_repo_info w).
Qed.



(** C7, as stated, fails: a state file that cannot be read makes
    [load_state] raise, and both scripts end with status 1. *)
Lemma C7_unreadable_file_is_fatal :
  load_state (Unreadable UnicodeDecodeError) = Raise UnicodeDecodeError ∧
  Download.main (Listing.world Listing.entries) (Unreadable UnicodeDecodeError)
  = (Unreadable UnicodeDecodeError, 1%Z) ∧
  Upload.main Scenario.world (Unreadable UnicodeDecodeError)
  = (Unreadable UnicodeDecodeError, 1%Z).
Proof. repeat split; vm_compute; reflexivity. Qed.

(** C7, amended: [load_state] returns the empty state when there is no state
    file and when the file does not hold valid JSON, where it prints a
    warning; any other failure to read the file is raised to the caller.  A
    save that follows replaces whatever the file held.  To the scripts a
    file that loads as the empty state is as no file: the download script
    ends with the same status and the same records, the upload script finds
    nothing to upload and leaves the file. *)
Theorem C7_load_state_of_missing_or_invalid_file (state_file : string) :
  load_state Absent = Ok empty_state ∧
  load_state_prints state_file Absent = [] ∧
  (∀ text,
      load_state (Garbage text) = Ok empty_state ∧
      load_state_prints state_file (Garbage text)
      = ["Warning: Invalid JSON in " ++ state_file
         ++ ", returning empty state"]) ∧
  (∀ doc,
      load_state (Partial doc) = Ok empty_state ∧
      load_state_prints state_file (Partial doc)
      = ["Warning: Invalid JSON in " ++ state_file
         ++ ", returning empty state"]) ∧
  (∀ doc, load_state (Document doc) = Ok doc) ∧
  (∀ e, load_state (Unreadable e) = Raise e) ∧
  (∀ e w, Download.main w (Unreadable e) = (Unreadable e, 1%Z)) ∧
  (∀ e w, Upload.main w (Unreadable e) = (Unreadable e, 1%Z)) ∧
  (∀ utcnow_isoformat videos f,
      load_state (save_state utcnow_isoformat videos f)
      = Ok (new_document utcnow_isoformat videos)) ∧
  (∀ w f,
      load_state f = Ok empty_state →
      (Download.main w f).2 = (Download.main w Absent).2 ∧
      stored_videos (Download.main w f).1
      = stored_videos (Download.main w Absent).1) ∧
  (∀ w f,
      load_state f = Ok empty_state →
      Upload.main w f = (f, (Upload.main w Absent).2)).
Proof.
  repeat split; try done.
  - intros e w. apply unreadable_state_is_fatal.
  - intros e w. apply unreadable_state_is_fatal.
  - by apply download_of_empty_state.
  - by apply download_of_empty_state.
  - intros w f. apply upload_of_empty_state.
Qed.

End StateFacts.

(** * Further properties *)

(** ** Checking a bounded range by computation *)

Module Bounded.

Lemma below (P : nat → bool) (N : nat) :
  forallb P (seq 0 N) = true → ∀ n, (n < N)%nat → P n = true.
Proof.
  intros Hall n Hn. rewrite forallb_forall in Hall. apply Hall.
  apply in_seq. lia.
Qed.

Lemma belowZ (P : Z → bool) (N : nat) :
  forallb (fun n => P (Z.of_nat n)) (seq 0 N) = true →
  ∀ z, (0 <= z < Z.of_nat N)%Z → P z = true.
Proof.
  intros Hall z Hz. rewrite <- (Z2Nat.id z) by lia.
  apply (below _ N Hall). lia.
Qed.

End Bounded.

(** ** Numbers written in a fixed number of digits *)

Module Digits.
Import Checks.

Lemma of_uint_acc_value d : ∀ p,
  N.pos (Pos.of_uint_acc d p) = value d (N.pos p).
Proof.
  induction d; intros p; simpl; [done|..]; rewrite IHd; f_equal; lia.
Qed.

Lemma of_uint_value d : N.of_uint d = value d 0.
Proof.
  unfold N.of_uint.
  induction d; simpl; [done|exact IHd|..]; by rewrite of_uint_acc_value.
Qed.

Lemma below_ten (q : N) :
  (q < 10)%N →
  q = 0%N ∨ q = 1%N ∨ q = 2%N ∨ q = 3%N ∨ q = 4%N ∨ q = 5%N ∨ q = 6%N
  ∨ q = 7%N ∨ q = 8%N ∨ q = 9%N.
Proof. lia. Qed.

Lemma value_digit q rest acc :
  (q < 10)%N → value (digit q rest) acc = value rest (10 * acc + q)%N.
Proof.
  intros Hq.
  destruct (below_ten q Hq) as [->|[->|[->|[->|[->|[->|[->|[->|[->| ->]]]]]]]]];
    simpl; f_equal; lia.
Qed.

Lemma value_fixed_width w : ∀ n acc,
  (n < 10 ^ N.of_nat w)%N →
  value (fixed_width w n) acc = (acc * 10 ^ N.of_nat w + n)%N.
Proof.
  induction w as [|w IH]; intros n acc Hn.
  - simpl in *. lia.
  - cbn [fixed_width].
    assert (Hpow : (10 ^ N.of_nat (S w) = 10 * 10 ^ N.of_nat w)%N).
    { rewrite Nat2N.inj_succ, N.pow_succ_r'. done. }
    assert (Hpos : (0 < 10 ^ N.of_nat w)%N).
    { apply N.neq_0_lt_0, N.pow_nonzero. done. }
    rewrite Hpow in *.
    rewrite value_digit by (apply N.Div0.div_lt_upper_bound; lia).
    rewrite IH by (apply N.mod_lt; lia).
    pose proof (N.div_mod n (10 ^ N.of_nat w) ltac:(lia)). nia.
Qed.

Lemma to_uint_fixed_width w n :
  (n < 10 ^ N.of_nat w)%N →
  N.to_uint n = Decimal.unorm (fixed_width w n).
Proof.
  intros Hn. rewrite <- DecimalN.Unsigned.to_of, of_uint_value, value_fixed_width by done.
  by rewrite N.mul_0_l, N.add_0_l.
Qed.

Lemma length_zeros n : String.length (zeros n) = n.
Proof. induction n as [|n IH]; simpl; [done | f_equal; exact IH]. Qed.

Lemma length_nzhead d :
  (String.length (NilEmpty.string_of_uint (Decimal.nzhead d))
   <= String.length (NilEmpty.string_of_uint d))%nat.
Proof. induction d; simpl; lia. Qed.

Lemma zeros_nzhead d :
  zeros (String.length (NilEmpty.string_of_uint d)
         - String.length (NilEmpty.string_of_uint (Decimal.nzhead d)))
  ++ NilEmpty.string_of_uint (Decimal.nzhead d)
  = NilEmpty.string_of_uint d.
Proof.
  induction d; try (simpl; rewrite ?Nat.sub_diag; done).
  cbn [Decimal.nzhead NilEmpty.string_of_uint String.length].
  pose proof (length_nzhead d).
  rewrite Nat.sub_succ_l by done. cbn [zeros]. rewrite <- IHd at 2. done.
Qed.

Lemma append_nil_r s : s ++ "" = s.
Proof.
  induction s as [|c s IH]; [done|].
  change (String c s ++ "") with (String c (s ++ "")). by rewrite IH.
Qed.

Lemma zeros_snoc k : zeros k ++ "0" = "0" ++ zeros k.
Proof.
  induction k as [|k IH]; [done|]. cbn [zeros].
  change (("0" ++ zeros k) ++ "0") with ("0" ++ (zeros k ++ "0")).
  by rewrite IH.
Qed.

Lemma zeros_unorm d :
  d ≠ Decimal.Nil →
  zeros (String.length (NilEmpty.string_of_uint d)
         - String.length (NilZero.string_of_uint (Decimal.unorm d)))
  ++ NilZero.string_of_uint (Decimal.unorm d)
  = NilEmpty.string_of_uint d.
Proof.
  intros Hd. pose proof (zeros_nzhead d) as Hz. unfold Decimal.unorm.
  destruct (Decimal.nzhead d) eqn:Hh; try exact Hz.
  cbn [NilEmpty.string_of_uint String.length] in Hz.
  rewrite Nat.sub_0_r, append_nil_r in Hz.
  cbn [NilZero.string_of_uint NilEmpty.string_of_uint String.length].
  destruct (String.length (NilEmpty.string_of_uint d)) as [|k] eqn:Hlen;
    [by destruct d|].
  rewrite <- Hz, Nat.sub_succ, Nat.sub_0_r. apply zeros_snoc.
Qed.

Lemma digit_cases q rest :
  (q < 10)%N →
  ∃ c, NilEmpty.string_of_uint (digit q rest)
       = String c (NilEmpty.string_of_uint rest) ∧
       N_of_ascii c = (48 + q)%N.
Proof.
  intros Hq.
  destruct (below_ten q Hq) as [->|[->|[->|[->|[->|[->|[->|[->|[->| ->]]]]]]]]];
    eexists; (split; [reflexivity|reflexivity]).
Qed.

Lemma fixed_width_nonnil w n : fixed_width (S w) n ≠ Decimal.Nil.
Proof. cbn [fixed_width]. unfold digit. by repeat case_match. Qed.

Lemma length_fixed_width w : ∀ n,
  (n < 10 ^ N.of_nat w)%N →
  String.length (NilEmpty.string_of_uint (fixed_width w n)) = w.
Proof.
  induction w as [|w IH]; intros n Hn; [done|].
  cbn [fixed_width].
  assert (Hpos : (0 < 10 ^ N.of_nat w)%N)
    by (apply N.neq_0_lt_0, N.pow_nonzero; done).
  rewrite Nat2N.inj_succ, N.pow_succ_r' in Hn.
  destruct (digit_cases (n / 10 ^ N.of_nat w)
              (fixed_width w (n mod 10 ^ N.of_nat w))) as (c & -> & _).
  { apply N.Div0.div_lt_upper_bound; lia. }
  simpl. rewrite IH; [done|]. apply N.mod_lt. lia.
Qed.

Lemma to_N_fits w n :
  (0 <= n < 10 ^ Z.of_nat w)%Z → (Z.to_N n < 10 ^ N.of_nat w)%N.
Proof.
  intros Hn. apply N2Z.inj_lt.
  rewrite N2Z.inj_pow, Z2N.id, nat_N_Z by lia.
  change (Z.of_N 10) with 10%Z. lia.
Qed.

(** [zpad] writes the digits of a number that fits the width. *)
Lemma zpad_fixed_width w n :
  (0 <= n < 10 ^ Z.of_nat (S w))%Z →
  zpad (S w) n = NilEmpty.string_of_uint (fixed_width (S w) (Z.to_N n)).
Proof.
  intros Hn. pose proof (to_N_fits _ _ Hn) as Hlt.
  unfold zpad, digits_of. rewrite (to_uint_fixed_width (S w)) by done.
  rewrite <- (zeros_unorm (fixed_width (S w) (Z.to_N n)))
    by apply fixed_width_nonnil.
  by rewrite length_fixed_width.
Qed.

Lemma compare_fixed_width w : ∀ a b,
  (a < 10 ^ N.of_nat w)%N → (b < 10 ^ N.of_nat w)%N →
  String.compare (NilEmpty.string_of_uint (fixed_width w a))
    (NilEmpty.string_of_uint (fixed_width w b))
  = (a ?= b)%N.
Proof.
  induction w as [|w IH]; intros a b Ha Hb.
  - simpl in *. assert (a = 0%N) as -> by lia. assert (b = 0%N) as -> by lia.
    done.
  - cbn [fixed_width].
    assert (Hpos : (0 < 10 ^ N.of_nat w)%N)
      by (apply N.neq_0_lt_0, N.pow_nonzero; done).
    rewrite Nat2N.inj_succ, N.pow_succ_r' in Ha, Hb.
    destruct (digit_cases (a / 10 ^ N.of_nat w)
                (fixed_width w (a mod 10 ^ N.of_nat w))) as (ca & -> & Hca).
    { apply N.Div0.div_lt_upper_bound; lia. }
    destruct (digit_cases (b / 10 ^ N.of_nat w)
                (fixed_width w (b mod 10 ^ N.of_nat w))) as (cb & -> & Hcb).
    { apply N.Div0.div_lt_upper_bound; lia. }
    cbn [String.compare]. unfold Ascii.compare. rewrite Hca, Hcb.
    rewrite IH by (apply N.mod_lt; lia).
    pose proof (N.div_mod a (10 ^ N.of_nat w) ltac:(lia)) as Hda.
    pose proof (N.div_mod b (10 ^ N.of_nat w) ltac:(lia)) as Hdb.
    pose proof (N.mod_lt a (10 ^ N.of_nat w) ltac:(lia)) as Hma.
    pose proof (N.mod_lt b (10 ^ N.of_nat w) ltac:(lia)) as Hmb.
    remember (10 ^ N.of_nat w)%N as p eqn:Hp.
    remember (a / p)%N as qa eqn:Hqa. remember (a mod p)%N as ra eqn:Hra.
    remember (b / p)%N as qb eqn:Hqb. remember (b mod p)%N as rb eqn:Hrb.
    clear Hp Hqa Hra Hqb Hrb IH Hca Hcb.
    destruct (N.compare_spec (48 + qa) (48 + qb)) as [He|Hl|Hg]; symmetry.
    + assert (qa = qb) as -> by lia.
      destruct (N.compare_spec ra rb);
        [apply N.compare_eq_iff | apply N.compare_lt_iff
         | apply N.compare_gt_iff]; lia.
    + apply N.compare_lt_iff. nia.
    + apply N.compare_gt_iff. nia.
Qed.

Lemma zpad_compare w a b :
  (0 <= a < 10 ^ Z.of_nat (S w))%Z → (0 <= b < 10 ^ Z.of_nat (S w))%Z →
  String.compare (zpad (S w) a) (zpad (S w) b) = (a ?= b)%Z.
Proof.
  intros Ha Hb. rewrite !zpad_fixed_width by done.
  rewrite compare_fixed_width by by apply to_N_fits.
  rewrite <- Z2N.inj_compare by lia. done.
Qed.

Lemma zpad_length w a :
  (0 <= a < 10 ^ Z.of_nat (S w))%Z → String.length (zpad (S w) a) = S w.
Proof.
  intros Ha. rewrite zpad_fixed_width by done.
  by apply length_fixed_width, to_N_fits.
Qed.

End Digits.

(** ** scripts/utils.py *)

Module UtilsMore.
Import Utils Pipeline DownloadSpec Checks.

Lemma two_digits_below_100 n : (0 <= n < 100)%Z → two_digits n = true.
Proof. apply (Bounded.belowZ two_digits 100). vm_compute. reflexivity. Qed.

Lemma format_02d_digits n :
  (0 <= n < 100)%Z →
  ∃ a b p q, format_02d n = String a (String b EmptyString) ∧
             digit_value a = Some p ∧ digit_value b = Some q ∧
             (10 * p + q = n)%Z.
Proof.
  intros Hn. pose proof (two_digits_below_100 n Hn) as H.
  unfold two_digits in H.
  destruct (format_02d n) as [|a [|b [|]]]; try done.
  destruct (digit_value a) as [p|] eqn:Ha; [|done].
  destruct (digit_value b) as [q|] eqn:Hb; [|done].
  exists a, b, p, q. split; [done|]. split; [done|]. split; [done|].
  by apply Z.eqb_eq.
Qed.

(** X1: for a duration below 100 hours, [get_audio_duration] writes
    [HH:MM:SS] in eight characters, and the digits give back the duration:
    minutes and seconds are below 60 and
    [3600 * HH + 60 * MM + SS] is the number of seconds. *)
Theorem X1_duration_string_reads_back (probe : string → option Z)
    (path : string) (seconds : Z) :
  probe path = Some seconds →
  (0 <= seconds < 360000)%Z →
  ∃ h1 h2 m1 m2 s1 s2 : ascii, ∃ hh mm ss : Z,
    get_audio_duration probe path
    = String h1 (String h2 (String ":" (String m1 (String m2
        (String ":" (String s1 (String s2 EmptyString))))))) ∧
    (digit_value h1 ≫= fun p => digit_value h2 ≫= fun q => Some (10 * p + q)%Z)
    = Some hh ∧
    (digit_value m1 ≫= fun p => digit_value m2 ≫= fun q => Some (10 * p + q)%Z)
    = Some mm ∧
    (digit_value s1 ≫= fun p => digit_value s2 ≫= fun q => Some (10 * p + q)%Z)
    = Some ss ∧
    (mm < 60)%Z ∧ (ss < 60)%Z ∧
    (3600 * hh + 60 * mm + ss = seconds)%Z.
Proof.
  intros Hprobe Hrange. unfold get_audio_duration, format_hms.
  rewrite Hprobe.
  assert (Hh : (0 <= seconds / 3600 < 100)%Z).
  { split; [apply Z.div_pos; lia | apply Z.div_lt_upper_bound; lia]. }
  assert (Hm : (0 <= seconds mod 3600 / 60 < 60)%Z).
  { pose proof (Z.mod_pos_bound seconds 3600 ltac:(lia)).
    split; [apply Z.div_pos; lia | apply Z.div_lt_upper_bound; lia]. }
  assert (Hs : (0 <= seconds mod 60 < 60)%Z) by (apply Z.mod_pos_bound; lia).
  destruct (format_02d_digits _ Hh) as (h1 & h2 & ph & qh & -> & Hh1 & Hh2 & Hhv).
  destruct (format_02d_digits (seconds mod 3600 / 60) ltac:(lia))
    as (m1 & m2 & pm & qm & -> & Hm1 & Hm2 & Hmv).
  destruct (format_02d_digits (seconds mod 60) ltac:(lia))
    as (s1 & s2 & ps & qs & -> & Hs1 & Hs2 & Hsv).
  exists h1, h2, m1, m2, s1, s2.
  exists (seconds / 3600)%Z, (seconds mod 3600 / 60)%Z, (seconds mod 60)%Z.
  rewrite Hh1, Hh2, Hm1, Hm2, Hs1, Hs2. simpl.
  rewrite Hhv, Hmv, Hsv. repeat split; try lia.
  pose proof (Z.div_mod seconds 3600 ltac:(lia)).
  pose proof (Z.div_mod (seconds mod 3600) 60 ltac:(lia)).
  assert ((seconds mod 3600) mod 60 = seconds mod 60)%Z.
  { apply Z.mod_mod_divide. exists 60%Z. lia. }
  lia.
Qed.

Lemma X1_duration_string_reads_back_witness :
  ∃ h1 h2 m1 m2 s1 s2 : ascii, ∃ hh mm ss : Z,
    get_audio_duration (fun _ => Some 3725%Z) "a.mp3"
    = String h1 (String h2 (String ":" (String m1 (String m2
        (String ":" (String s1 (String s2 EmptyString))))))) ∧
    (digit_value h1 ≫= fun p => digit_value h2 ≫= fun q => Some (10 * p + q)%Z)
    = Some hh ∧
    (digit_value m1 ≫= fun p => digit_value m2 ≫= fun q => Some (10 * p + q)%Z)
    = Some mm ∧
    (digit_value s1 ≫= fun p => digit_value s2 ≫= fun q => Some (10 * p + q)%Z)
    = Some ss ∧
    (mm < 60)%Z ∧ (ss < 60)%Z ∧
    (3600 * hh + 60 * mm + ss = 3725)%Z.
Proof.
  apply (X1_duration_string_reads_back (fun _ => Some 3725%Z) "a.mp3" 3725).
  - reflexivity.
  - lia.
Defined.

(** X2: [add_video_to_state] keeps the records of the state in place and
    puts the new record after them; its id is then among the processed ids,
    with all the ids that were there.  On a file that cannot be read it
    raises. *)
Theorem X2_add_video_to_state_appends (utcnow_isoformat : string)
    (video_info : Video) (f : StateFile) :
  (∀ state,
      load_state f = Ok state →
      ∃ f', add_video_to_state utcnow_isoformat video_info f = Ok f' ∧
            load_state f'
            = Ok {| last_updated := Some (utcnow_isoformat ++ "Z");
                    videos := app (videos state) [video_info] |} ∧
            get_processed_video_ids f'
            = Ok (ids_of (videos state) ∪ {[ video_id video_info ]})) ∧
  (∀ e, load_state f = Raise e →
        add_video_to_state utcnow_isoformat video_info f = Raise e).
Proof.
  unfold add_video_to_state. split.
  - intros state ->. simpl. eexists. split; [reflexivity|]. split; [done|].
    unfold get_processed_video_ids. simpl. f_equal.
    unfold ids_of. rewrite fmap_app, list_to_set_app_L. simpl.
    by rewrite union_empty_r_L.
  - by intros e ->.
Qed.

End UtilsMore.
(** ** scripts/upload_to_release.py *)

Module UploadMore.
Import Upload UploadSpec Pipeline Checks UploadFacts.

(** *** The repository name *)

Lemma split_char_no_sep c s : has_char c s = false → split_char c s = [s].
Proof.
  induction s as [|a s IH]; simpl; [done|].
  intros [Ha Hs]%orb_false_iff. rewrite Ha, IH; done.
Qed.

Lemma split_char_app c o r :
  has_char c o = false →
  split_char c (o ++ String c r) = o :: split_char c r.
Proof.
  induction o as [|a o IH]; simpl.
  - intros _. by rewrite Ascii.eqb_refl.
  - intros [Ha Ho]%orb_false_iff. rewrite Ha, IH; done.
Qed.

Lemma split_char_nonempty c s : split_char c s ≠ [].
Proof.
  destruct s as [|a s]; simpl; [done|].
  destruct (Ascii.eqb a c); [done|]. by destruct (split_char c s).
Qed.

Lemma split_char_single c s : ∀ r,
  split_char c s = [r] → s = r ∧ has_char c r = false.
Proof.
  induction s as [|a s IH]; intros r Hs; simpl in Hs.
  - by injection Hs as <-.
  - destruct (Ascii.eqb a c) eqn:Hac.
    + injection Hs as _ Hs. by destruct (split_char_nonempty c s).
    + destruct (split_char c s) as [|p ps] eqn:Hp;
        [by destruct (split_char_nonempty c s)|].
      injection Hs as <- ->. destruct (IH p eq_refl) as [-> Hr].
      simpl. by rewrite Hac, Hr.
Qed.

Lemma split_char_inv c s : ∀ o r,
  split_char c s = [o; r] →
  s = o ++ String c r ∧ has_char c o = false ∧ has_char c r = false.
Proof.
  induction s as [|a s IH]; intros o r Hs; simpl in Hs; [done|].
  destruct (Ascii.eqb a c) eqn:Hac.
  - apply Ascii.eqb_eq in Hac as ->. injection Hs as <- Hs.
    destruct (split_char_single _ _ _ Hs) as [-> Hr]. done.
  - destruct (split_char c s) as [|p ps] eqn:Hp; [done|].
    injection Hs as <- ->. destruct (IH p r eq_refl) as (-> & Hpo & Hr).
    simpl. by rewrite Hac, Hpo, Hr.
Qed.

(** X3: [get_repo_info] succeeds exactly on a [GITHUB_REPOSITORY] with one
    slash, and returns what stands before and after it; either part may be
    empty.  It raises nothing but [ValueError]. *)
Theorem X3_get_repo_info_wants_one_slash (w : World) :
  (∀ owner repo_name,
      get_repo_info w = Ok (owner, repo_name)
      ↔ env_GITHUB_REPOSITORY w = Some (owner ++ "/" ++ repo_name) ∧
        has_char "/" owner = false ∧ has_char "/" repo_name = false) ∧
  (∀ e, get_repo_info w = Raise e → e = ValueError).
Proof.
  unfold get_repo_info. split.
  - intros owner repo. split.
    + destruct (env_GITHUB_REPOSITORY w) as [s|]; simpl; [|done].
      destruct (String.eqb s ""); simpl; [done|].
      destruct (split_char "/" s) as [|o [|r [|]]] eqn:Hs; try done.
      intros [= <- <-]. apply split_char_inv in Hs as (-> & ? & ?). done.
    + intros (-> & Ho & Hr). simpl.
      change ("/" ++ repo) with (String "/" repo).
      destruct (String.eqb_spec (owner ++ String "/" repo) "") as [He|_].
      { by destruct owner. }
      simpl. by rewrite (split_char_app _ _ _ Ho), (split_char_no_sep _ _ Hr).
  - intros e. destruct (truthy _); [|by intros [= <-]].
    destruct (split_char _ _) as [|o [|r [|]]]; try by intros [= <-].
Qed.

(** *** What the upload script leaves alone *)

Lemma touched_same_item v v' : touched v v' → same_item v v'.
Proof. intros [|url tag _ _]; by repeat split. Qed.

(** X4: a run of the upload script keeps the number and the order of the
    records, and of each record every field but [audio_url] and
    [release_tag]; a record it changes was not published and is published
    afterwards. *)
Theorem X4_upload_keeps_the_records (w : World) (f : Utils.StateFile) :
  List.length (stored_videos (Upload.main w f).1)
  = List.length (stored_videos f) ∧
  (∀ i v v',
      stored_videos f !! i = Some v →
      stored_videos (Upload.main w f).1 !! i = Some v' →
      same_item v v' ∧ (v' = v ∨ (¬ published v ∧ published v'))).
Proof.
  pose proof (upload_main_touched w f) as Ht. split.
  - symmetry. by eapply Forall2_length.
  - intros i v v' Hv Hv'.
    pose proof (Forall2_lookup_lr _ _ _ _ _ _ Ht Hv Hv') as Hvv.
    split; [by apply touched_same_item|].
    destruct Hvv as [|url tag Hnot Hurl]; [by left|].
    right. split; [done | by apply published_with_release].
Qed.

(** *** Files that are not there, uploads that fail *)

Lemma upload_loop_no_files w refs : ∀ idx st,
  (∀ i path, path_exists w i path = false) →
  upload_loop w idx refs st = Ok st.
Proof.
  induction refs as [|ref refs IH]; intros idx st Hno; simpl; [done|].
  unfold upload_step. destruct (objs st !! ref); rewrite ?Hno; simpl;
    by apply IH.
Qed.

(** X5: when none of the audio files exists the upload loop creates no
    release and changes no record; the script then writes the records back
    as they were. *)
Theorem X5_nothing_is_uploaded_without_files (w : World)
    (records : list Video) :
  (∀ idx path, path_exists w idx path = false) →
  upload_all w records = Ok (start records) ∧
  (∀ f state token repo,
      get_github_token w = Ok token →
      get_repo_info w = Ok repo →
      Utils.load_state f = Ok state →
      stored_videos (Upload.main w f).1 = videos state ∧
      (Upload.main w f).2 = 0%Z).
Proof.
  intros Hno. split; [by apply upload_loop_no_files|].
  intros f state token repo Htok Hrepo Hload.
  unfold Upload.main, upload_new_videos_to_release, upload_all.
  rewrite Htok, Hrepo, Hload. simpl.
  destruct (videos_to_upload (videos state)) as [|ref refs] eqn:Hrefs.
  - unfold stored_videos. simpl. by rewrite ?Hload.
  - by rewrite (upload_loop_no_files _ _ _ _ Hno).
Qed.

Lemma X5_nothing_is_uploaded_without_files_witness :
  upload_all
    {| env_GITHUB_TOKEN := Some "token";
       env_GITHUB_REPOSITORY := Some "owner/repo";
       path_exists := fun _ _ => false;
       st_size := fun _ _ => 0%Z;
       utcnow := utcnow Scenario.world;
       create_git_release := fun _ _ => true;
       upload_asset := fun _ _ _ => None;
       utcnow_save := utcnow_save Scenario.world |}
    [Scenario.video_A; Scenario.video_B]
  = Ok (start [Scenario.video_A; Scenario.video_B]).
Proof.
  apply (X5_nothing_is_uploaded_without_files
           {| env_GITHUB_TOKEN := Some "token";
              env_GITHUB_REPOSITORY := Some "owner/repo";
              path_exists := fun _ _ => false;
              st_size := fun _ _ => 0%Z;
              utcnow := utcnow Scenario.world;
              create_git_release := fun _ _ => true;
              upload_asset := fun _ _ _ => None;
              utcnow_save := utcnow_save Scenario.world |}
           [Scenario.video_A; Scenario.video_B]).
  intros idx path. reflexivity.
Defined.

Lemma upload_step_completes w idx ref st :
  (∀ i tag, create_git_release w i tag = true) →
  ∃ st', upload_step w idx ref st = Ok st'.
Proof.
  intros Hcreate. unfold upload_step.
  destruct (objs st !! ref); [|eauto].
  destruct (negb _); [eauto|].
  unfold get_or_create_release, create_release.
  destruct (current_release st); [destruct (size_limit_reached _)|];
    rewrite ?Hcreate; simpl; destruct (truthy _); eauto.
Qed.

Lemma upload_loop_completes w refs : ∀ idx st,
  (∀ i tag, create_git_release w i tag = true) →
  ∃ st', upload_loop w idx refs st = Ok st'.
Proof.
  induction refs as [|ref refs IH]; intros idx st Hcreate; simpl; [eauto|].
  destruct (upload_step_completes w idx ref st Hcreate) as [st1 ->].
  simpl. by apply IH.
Qed.

Lemma upload_step_raises w idx ref st e :
  upload_step w idx ref st = Raise e →
  e = GithubException ∧ ∃ tag, create_git_release w idx tag = false.
Proof.
  unfold upload_step. destruct (objs st !! ref); [|done].
  destruct (negb _); [done|].
  unfold get_or_create_release, create_release.
  destruct (current_release st); [destruct (size_limit_reached _)|];
    try (destruct (create_git_release w idx _) eqn:Hc; simpl;
         [by destruct (truthy _) | intros [= <-]; eauto]).
  simpl. by destruct (truthy _).
Qed.

Lemma upload_loop_raises w refs : ∀ idx st e,
  upload_loop w idx refs st = Raise e →
  e = GithubException ∧ ∃ i tag, create_git_release w i tag = false.
Proof.
  induction refs as [|ref refs IH]; intros idx st e Hrun; simpl in Hrun;
    [done|].
  destruct (upload_step w idx ref st) as [st1|e1] eqn:Hstep; simpl in Hrun.
  - by eapply IH.
  - injection Hrun as <-.
    destruct (upload_step_raises _ _ _ _ _ Hstep) as [-> [tag Htag]]. eauto.
Qed.

(** X6: an upload that fails does not end the run: the upload loop runs to
    its end whenever every release it asks for is created, whatever the
    uploads return.  When it does raise, the exception is that of a release
    that could not be created. *)
Theorem X6_failed_uploads_do_not_end_the_run (w : World)
    (videos : list Video) :
  ((∀ idx tag, create_git_release w idx tag = true) →
   ∃ st, upload_all w videos = Ok st) ∧
  (∀ e, upload_all w videos = Raise e →
        e = GithubException ∧
        ∃ idx tag, create_git_release w idx tag = false).
Proof.
  split.
  - intros Hcreate. by apply upload_loop_completes.
  - intros e. apply upload_loop_raises.
Qed.

(** *** Releases and sizes *)

Lemma tags_note_upload size h : (note_upload size h).*1 = h.*1.
Proof. by destruct h as [|[tag sizes] rest]. Qed.

Lemma recorded_mono h h' v v' :
  h.*1 ⊆ h'.*1 → recorded h v v' → recorded h' v v'.
Proof.
  intros Hsub [->|(url & tag & Hurl & Htag & ->)]; [by left|].
  right. exists url, tag. auto.
Qed.

Lemma recorded_again h v v' url tag :
  url ≠ "" → tag ∈ h.*1 → recorded h v v' →
  recorded h v (with_release v' url tag).
Proof.
  intros Hurl Htag Hv. right. exists url, tag. split; [done|]. split; [done|].
  by destruct Hv as [->|(url' & tag' & _ & _ & ->)].
Qed.

Lemma upload_step_recorded w idx ref st st' l0 :
  loop_inv st →
  Forall2 (recorded (history st)) l0 (objs st) →
  Forall (stamped w) (history st) →
  upload_step w idx ref st = Ok st' →
  Forall2 (recorded (history st')) l0 (objs st') ∧
  Forall (stamped w) (history st').
Proof.
  intros [_ Hcur] Hrec Hst Hstep. unfold upload_step in Hstep.
  destruct (objs st !! ref) as [video|] eqn:Hv; [|by simplify_eq].
  destruct (negb _); [by simplify_eq|].
  assert (Hget : ∃ release size created,
             get_or_create_release w idx (current_release st) (current_size st)
             = Ok (release, size, created) ∧
             release ∈ (note_release created release (history st)).*1 ∧
             Forall (stamped w) (note_release created release (history st)) ∧
             (history st).*1 ⊆ (note_release created release (history st)).*1).
  { unfold get_or_create_release, create_release in *.
    destruct (history st) as [|[tag sizes] older] eqn:Hh.
    - rewrite Hcur in *.
      destruct (create_git_release w idx _); simpl in *; [|done].
      eexists _, _, _. split; [done|]. simpl.
      split; [apply list_elem_of_here|].
      split; [|intros x Hx; by apply elem_of_nil in Hx].
      constructor; [by exists idx | done].
    - destruct Hcur as (Hrel & _ & _). rewrite Hrel in *.
      destruct (size_limit_reached _).
      + destruct (create_git_release w idx _); simpl in *; [|done].
        eexists _, _, _. split; [done|]. simpl.
        split; [apply list_elem_of_here|].
        split; [|intros x Hx; by apply list_elem_of_further].
        constructor; [by exists idx | done].
      + eexists _, _, _. split; [done|]. simpl.
        split; [apply list_elem_of_here|]. split; [done | by intros ??]. }
  destruct Hget as (release & size & created & Hget & Hin & Hst' & Hsub).
  rewrite Hget in Hstep. simpl in Hstep.
  unfold upload_file_to_release in Hstep.
  destruct (upload_asset w idx release _) as [url|]; simpl in Hstep.
  - destruct (String.eqb_spec url "") as [|Hurl]; simpl in Hstep;
      simplify_eq; simpl.
    + split; [|done]. eapply Forall2_impl; [exact Hrec|].
      intros ??. by apply recorded_mono.
    + split.
      * destruct (Forall2_lookup_r _ _ _ _ _ Hrec Hv) as (v0 & Hv0 & Hr0).
        rewrite <- (list_insert_id l0 ref v0 Hv0).
        apply Forall2_insert.
        -- eapply Forall2_impl; [exact Hrec|].
           intros ??. apply recorded_mono. by rewrite tags_note_upload.
        -- apply recorded_again; [done | by rewrite tags_note_upload |].
           eapply recorded_mono; [|exact Hr0]. by rewrite tags_note_upload.
      * destruct (note_release created release (history st))
          as [|[tag sizes] rest]; [done|].
        apply Forall_cons in Hst' as [[i Hi] Hrest]. constructor; [|done].
        by exists i.
  - simplify_eq. simpl. split; [|done]. eapply Forall2_impl; [exact Hrec|].
    intros ??. by apply recorded_mono.
Qed.

Lemma upload_loop_recorded w refs l0 : ∀ idx st st',
  loop_inv st →
  Forall2 (recorded (history st)) l0 (objs st) →
  Forall (stamped w) (history st) →
  upload_loop w idx refs st = Ok st' →
  Forall2 (recorded (history st')) l0 (objs st') ∧
  Forall (stamped w) (history st').
Proof.
  induction refs as [|ref refs IH]; intros idx st st' Hinv Hrec Hst Hrun;
    simpl in Hrun; [by simplify_eq|].
  destruct (upload_step w idx ref st) as [st1|] eqn:Hstep; [|done].
  simpl in Hrun.
  destruct (upload_step_recorded _ _ _ _ _ _ Hinv Hrec Hst Hstep) as [H1 H2].
  eapply IH; [|exact H1|exact H2|exact Hrun].
  by eapply upload_step_inv.
Qed.

(** X7: after the upload loop, a record that was changed carries a URL
    that is not empty and the tag of a release that this run created, and
    every such tag is ["release-"] followed by a reading of the clock.
    [current_release] is the newest of these releases and [current_size] the
    sum of the sizes of the files uploaded to it; when the run created no
    release, no record was changed. *)
Theorem X7_published_records_name_a_release_of_the_run (w : World)
    (records : list Video) (st : Loop) :
  upload_all w records = Ok st →
  Forall2 (recorded (history st)) records (objs st) ∧
  Forall (fun b : Batch =>
            ∃ idx, b.1 = "release-" ++ strftime_stamp (utcnow w idx))
    (history st) ∧
  match history st with
  | [] => current_release st = None ∧ objs st = records
  | (tag, sizes) :: _ =>
      current_release st = Some tag ∧ current_size st = total sizes
  end.
Proof.
  intros Hrun.
  destruct (upload_loop_recorded w _ records _ _ _
              (loop_inv_start records)
              ltac:(apply Forall_Forall2_diag, Forall_forall; by left)
              ltac:(constructor) Hrun) as [Hrec Hst].
  destruct (upload_loop_inv _ _ _ _ _ (loop_inv_start records) Hrun)
    as [_ Hcur].
  split; [exact Hrec|]. split; [exact Hst|].
  destruct (history st) as [|[tag sizes] older]; [|tauto].
  split; [done|]. symmetry. apply list_eq_Forall2.
  eapply Forall2_impl; [exact Hrec|].
  intros v v' [->|(url & tag & _ & Htag & _)]; [done|].
  by apply elem_of_nil in Htag.
Qed.

Lemma X7_published_records_name_a_release_of_the_run_witness :
  Forall2 (recorded (history Scenario.final))
    [Scenario.video_A; Scenario.video_B] (objs Scenario.final).
Proof.
  apply (X7_published_records_name_a_release_of_the_run Scenario.world
           [Scenario.video_A; Scenario.video_B] Scenario.final).
  vm_compute. reflexivity.
Defined.

End UploadMore.
(** ** scripts/download_audio.py *)

Module DownloadMore.
Import Download DownloadSpec Pipeline Checks DownloadFacts.

(** *** The listing *)

Lemma entry_video_url d v :
  entry_video d = Ok v → pv_url v = watch_url (pv_video_id v).
Proof.
  unfold entry_video. destruct (e_id d); [|done]. by intros [= <-].
Qed.

Lemma collect_videos_urls entries : ∀ videos result,
  Forall (fun v => pv_url v = watch_url (pv_video_id v)) videos →
  collect_videos entries videos = Ok result →
  Forall (fun v => pv_url v = watch_url (pv_video_id v)) result.
Proof.
  induction entries as [|e entries IH]; intros videos result Hall Hrun.
  - simpl in Hrun. by injection Hrun as <-.
  - destruct e as [|d]; [by eapply IH|].
    rewrite collect_videos_info in Hrun.
    destruct (entry_truthy (Info d)); [|by eapply IH].
    destruct (entry_video d) as [v|] eqn:Hv; simpl in Hrun; [|done].
    eapply IH; [|exact Hrun]. apply Forall_app. split; [done|].
    constructor; [by eapply entry_video_url | done].
Qed.

Lemma collect_videos_raises entries : ∀ videos e,
  collect_videos entries videos = Raise e → e = KeyError.
Proof.
  induction entries as [|en entries IH]; intros videos e Hrun; [done|].
  destruct en as [|d]; [simpl in Hrun; exact (IH _ _ Hrun)|].
  rewrite collect_videos_info in Hrun.
  destruct (entry_truthy (Info d)); [|exact (IH _ _ Hrun)].
  unfold entry_video in Hrun. destruct (e_id d); simpl in Hrun.
  - exact (IH _ _ Hrun).
  - by injection Hrun as <-.
Qed.

(** X8: when [fetch_playlist_videos] returns, the list is not empty, and
    the URL of every video is the watch URL of its id; when it raises, the
    exception is [RuntimeError] or [KeyError]. *)
Theorem X8_fetch_returns_videos_or_raises (w : World) (playlist_url : string) :
  (∀ listing,
      (fetch_playlist_videos w playlist_url).2 = Ok listing →
      listing ≠ [] ∧
      Forall (fun v => pv_url v = watch_url (pv_video_id v)) listing) ∧
  (∀ e,
      (fetch_playlist_videos w playlist_url).2 = Raise e →
      e = RuntimeError ∨ e = KeyError).
Proof.
  unfold fetch_playlist_videos.
  destruct (extract_playlist w playlist_url) as [info|]; simpl;
    [|split; [done | intros e [= <-]; by left]].
  destruct (_ && _).
  - destruct (truthy (p_id info)); simpl.
    + split; [|done]. intros listing [= <-]. split; [done|].
      by repeat constructor.
    + split; [done | intros e [= <-]; by left].
  - destruct (collect_videos _ []) as [[|v listing]|e'] eqn:Hc; simpl.
    + split; [done | intros e [= <-]; by left].
    + split; [|done]. intros ? [= <-]. split; [done|].
      by eapply collect_videos_urls.
    + split; [done|]. intros e [= <-]. right.
      by eapply collect_videos_raises.
Qed.

(** *** The new records *)

Lemma process_loop_records w l : ∀ idx r,
  r ∈ process_loop w idx l [] →
  ∃ v, v ∈ l ∧ ingestible w v = true ∧ video_id r = pv_video_id v ∧
       title r = m_title (get_full_video_metadata w (pv_url v)) ∧
       file_path r = Some (mp3_file w (pv_video_id v)) ∧
       release_tag r = None ∧ audio_url r = None.
Proof.
  induction l as [|v l IH]; intros idx r Hr; simpl in Hr.
  - by apply elem_of_nil in Hr.
  - destruct (ingestible w v) eqn:Hi.
    + rewrite (process_video_ingestible _ _ _ Hi), process_loop_acc in Hr.
      apply elem_of_app in Hr as [Hr|Hr].
      * apply list_elem_of_singleton in Hr as ->. exists v.
        split; [apply list_elem_of_here | done].
      * destruct (IH _ _ Hr) as (v' & Hin & Hrest). exists v'.
        split; [by apply list_elem_of_further | done].
    + rewrite (process_video_skipped _ _ _ Hi) in Hr.
      destruct (IH _ _ Hr) as (v' & Hin & Hrest). exists v'.
      split; [by apply list_elem_of_further | done].
Qed.

(** X9: the records [process_new_videos] returns are those of the items of
    the listing that no record of the state names and whose download left
    an MP3 file, in the order of the listing.  Each has the id of its item,
    the path of its file, and neither URL nor release. *)
Theorem X9_new_records_are_the_ingested_new_items (w : World)
    (f : Utils.StateFile) (newly_processed : list Video) :
  process_new_videos w f = Ok newly_processed →
  ∃ state playlist_url listing,
    Utils.load_state f = Ok state ∧
    get_playlist_url w = Ok playlist_url ∧
    (fetch_playlist_videos w playlist_url).2 = Ok listing ∧
    video_id <$> newly_processed
    = pv_video_id <$>
        filter (fun v => ingestible w v)
          (new_videos (ids_of (videos state)) listing) ∧
    (∀ r, r ∈ newly_processed →
          (∃ v, v ∈ listing ∧ video_id r = pv_video_id v) ∧
          (∀ old, old ∈ videos state → video_id old ≠ video_id r) ∧
          file_path r = Some (mp3_file w (video_id r)) ∧
          release_tag r = None ∧ audio_url r = None).
Proof.
  unfold process_new_videos, Utils.get_processed_video_ids. intros Hrun.
  destruct (get_playlist_url w) as [url|]; simpl in Hrun; [|done].
  destruct (Utils.load_state f) as [state|]; simpl in Hrun; [|done].
  destruct (fetch_playlist_videos w url).2 as [listing|] eqn:Hfetch;
    simpl in Hrun; [|done].
  injection Hrun as <-. exists state, url, listing.
  fold (ids_of (videos state)).
  split; [done|]. split; [done|]. split; [done|].
  split; [apply process_loop_ids|].
  intros r Hr.
  apply process_loop_records in Hr
    as (v & Hv & _ & Hid & _ & Hpath & Htag & Hurl).
  apply list_elem_of_filter in Hv as [Hnew Hv].
  split; [by exists v|]. split; [|by rewrite Hid].
  intros old Hold Heq. apply Hnew, elem_of_ids_of. exists old.
  split; [done | congruence].
Qed.

Lemma X9_new_records_are_the_ingested_new_items_witness :
  ∃ state playlist_url listing,
    Utils.load_state Utils.Absent = Ok state ∧
    get_playlist_url (Listing.world Listing.entries) = Ok playlist_url ∧
    (fetch_playlist_videos (Listing.world Listing.entries) playlist_url).2
    = Ok listing ∧
    video_id <$> [Listing.record_x 1; Listing.record_x 2; Listing.record_y 3]
    = pv_video_id <$>
        filter (fun v => ingestible (Listing.world Listing.entries) v)
          (new_videos (ids_of (videos state)) listing) ∧
    (∀ r, r ∈ [Listing.record_x 1; Listing.record_x 2; Listing.record_y 3] →
          (∃ v, v ∈ listing ∧ video_id r = pv_video_id v) ∧
          (∀ old, old ∈ videos state → video_id old ≠ video_id r) ∧
          file_path r
          = Some (mp3_file (Listing.world Listing.entries) (video_id r)) ∧
          release_tag r = None ∧ audio_url r = None).
Proof.
  apply (X9_new_records_are_the_ingested_new_items
           (Listing.world Listing.entries) Utils.Absent
           [Listing.record_x 1; Listing.record_x 2; Listing.record_y 3]).
  vm_compute. reflexivity.
Defined.

(** *** The ids of the state *)

(** X10: when the ids of the listing are distinct and those of the state
    are, a run of the download script leaves a state whose ids are
    distinct. *)
Theorem X10_download_keeps_ids_distinct (w : World) (f : Utils.StateFile) :
  (∀ playlist_url listing,
      get_playlist_url w = Ok playlist_url →
      (fetch_playlist_videos w playlist_url).2 = Ok listing →
      NoDup (pv_video_id <$> listing)) →
  NoDup (video_id <$> stored_videos f) →
  NoDup (video_id <$> stored_videos (main w f).1).
Proof.
  intros Hlisting Hstate.
  unfold main, run, process_new_videos, Utils.get_processed_video_ids.
  destruct (get_playlist_url w) as [url|] eqn:Hurl; simpl; [|done].
  destruct (Utils.load_state f) as [state|] eqn:Hload; simpl; [|done].
  destruct (fetch_playlist_videos w url).2 as [listing|] eqn:Hfetch; simpl;
    [|done].
  fold (ids_of (videos state)).
  pose proof (process_loop_ids w (new_videos (ids_of (videos state)) listing) 1)
    as Hids.
  destruct (process_loop _ _ _ _) as [|r newly]; simpl; [done|].
  unfold stored_videos in *. rewrite Hload in Hstate.
  cbn [Utils.save_state Utils.load_state Utils.new_document videos].
  rewrite fmap_app, Hids. apply NoDup_app. split; [done|]. split.
  - intros id Hold (v & -> & Hv)%list_elem_of_fmap.
    apply list_elem_of_filter in Hv as [_ Hv].
    apply list_elem_of_filter in Hv as [Hnew _].
    apply Hnew. unfold ids_of. by apply elem_of_list_to_set.
  - eapply sublist_NoDup; [exact (Hlisting _ _ eq_refl Hfetch)|].
    apply fmap_sublist. etrans; apply sublist_filter.
Qed.

Lemma X10_download_keeps_ids_distinct_witness :
  NoDup (video_id <$>
           stored_videos
             (main (Listing.world [Listing.entry "x" None;
                                   Listing.entry "y" None])
                   (Utils.Document
                      {| last_updated := None;
                         videos := [Listing.record_x 1] |})).1).
Proof.
  apply X10_download_keeps_ids_distinct.
  - intros playlist_url listing _. vm_compute. intros [= <-].
    apply NoDup_cons. split; [|apply NoDup_singleton].
    intros Hin. apply list_elem_of_singleton in Hin. discriminate.
  - vm_compute. apply NoDup_singleton.
Defined.

(** *** Upload dates *)

Lemma pad2_digits n :
  (0 <= n < 100)%Z →
  ∃ a b p q, zpad 2 n = String a (String b EmptyString) ∧
             digit_value a = Some p ∧ digit_value b = Some q ∧
             (10 * p + q = n)%Z.
Proof.
  intros Hn.
  assert (H : pad2_reads_back n = true).
  { apply (Bounded.belowZ pad2_reads_back 100); [|done].
    vm_compute. reflexivity. }
  unfold pad2_reads_back in H.
  destruct (zpad 2 n) as [|a [|b [|]]]; try done.
  destruct (digit_value a) as [p|] eqn:Ha; [|done].
  destruct (digit_value b) as [q|] eqn:Hb; [|done].
  exists a, b, p, q. split; [done|]. split; [done|]. split; [done|].
  by apply Z.eqb_eq.
Qed.

Lemma digit_value_char c q :
  N_of_ascii c = (48 + q)%N → (q < 10)%N → digit_value c = Some (Z.of_N q).
Proof.
  intros Hc Hq. unfold digit_value, nat_of_ascii.
  rewrite N_nat_Z, Hc.
  replace (_ && _) with true; [f_equal; lia|].
  symmetry. apply andb_true_iff. split; apply Z.leb_le; lia.
Qed.

Lemma pad4_digits n :
  (0 <= n < 10000)%Z →
  ∃ a b c d p q r s,
    zpad 4 n = String a (String b (String c (String d EmptyString))) ∧
    digit_value a = Some p ∧ digit_value b = Some q ∧
    digit_value c = Some r ∧ digit_value d = Some s ∧
    (1000 * p + 100 * q + 10 * r + s = n)%Z.
Proof.
  intros Hn. rewrite (Digits.zpad_fixed_width 3) by (simpl; lia).
  assert (Hlt : (Z.to_N n < 10000)%N) by lia.
  cbn [fixed_width]. change (N.of_nat 3) with 3%N.
  change (N.of_nat 2) with 2%N. change (N.of_nat 1) with 1%N.
  change (N.of_nat 0) with 0%N.
  change (10 ^ 3)%N with 1000%N. change (10 ^ 2)%N with 100%N.
  change (10 ^ 1)%N with 10%N. change (10 ^ 0)%N with 1%N.
  remember (Z.to_N n) as m eqn:Hm.
  pose proof (N.div_mod m 1000 ltac:(lia)) as H3.
  pose proof (N.mod_lt m 1000 ltac:(lia)) as L3.
  pose proof (N.div_mod (m mod 1000) 100 ltac:(lia)) as H2.
  pose proof (N.mod_lt (m mod 1000) 100 ltac:(lia)) as L2.
  pose proof (N.div_mod (m mod 1000 mod 100) 10 ltac:(lia)) as H1.
  pose proof (N.mod_lt (m mod 1000 mod 100) 10 ltac:(lia)) as L1.
  pose proof (N.div_1_r (m mod 1000 mod 100 mod 10)) as H0.
  assert (B3 : (m / 1000 < 10)%N)
    by (apply N.Div0.div_lt_upper_bound; lia).
  assert (B2 : (m mod 1000 / 100 < 10)%N)
    by (apply N.Div0.div_lt_upper_bound; lia).
  assert (B1 : (m mod 1000 mod 100 / 10 < 10)%N)
    by (apply N.Div0.div_lt_upper_bound; lia).
  assert (B0 : (m mod 1000 mod 100 mod 10 / 1 < 10)%N)
    by (rewrite H0; exact L1).
  destruct (Digits.digit_cases (m / 1000)
              (digit (m mod 1000 / 100)
                 (digit (m mod 1000 mod 100 / 10)
                    (digit (m mod 1000 mod 100 mod 10 / 1) Decimal.Nil)))
              B3)
    as (a & Ea & Ha).
  destruct (Digits.digit_cases (m mod 1000 / 100)
              (digit (m mod 1000 mod 100 / 10)
                 (digit (m mod 1000 mod 100 mod 10 / 1) Decimal.Nil))
              B2)
    as (b & Eb & Hb).
  destruct (Digits.digit_cases (m mod 1000 mod 100 / 10)
              (digit (m mod 1000 mod 100 mod 10 / 1) Decimal.Nil) B1)
    as (c & Ec & Hc).
  destruct (Digits.digit_cases (m mod 1000 mod 100 mod 10 / 1) Decimal.Nil
              B0)
    as (d & Ed & Hd).
  exists a, b, c, d, (Z.of_N (m / 1000)), (Z.of_N (m mod 1000 / 100)),
    (Z.of_N (m mod 1000 mod 100 / 10)),
    (Z.of_N (m mod 1000 mod 100 mod 10 / 1)).
  split; [by rewrite Ea, Eb, Ec, Ed|].
  split; [by apply digit_value_char|].
  split; [by apply digit_value_char|].
  split; [by apply digit_value_char|].
  split; [by apply digit_value_char|].
  rewrite H0. clear Ea Eb Ec Ed Ha Hb Hc Hd B3 B2 B1 B0 H0.
  revert H3 L3 H2 L2 H1 L1.
  generalize (m / 1000)%N (m mod 1000 / 100)%N (m mod 1000 mod 100 / 10)%N
             (m mod 1000 mod 100 mod 10)%N.
  generalize (m mod 1000 mod 100)%N (m mod 1000)%N.
  intros. lia.
Qed.

Lemma digit_value_range c p : digit_value c = Some p → (0 <= p <= 9)%Z.
Proof.
  unfold digit_value. destruct (_ && _) eqn:Hc; [|done].
  intros [= <-]. apply andb_true_iff in Hc as [?%Z.leb_le ?%Z.leb_le]. lia.
Qed.

Lemma digit_is_no_space c p : digit_value c = Some p → Ascii.eqb c " " = false.
Proof.
  intros Hc. destruct (Ascii.eqb_spec c " ") as [->|]; [|done].
  vm_compute in Hc. discriminate.
Qed.

Lemma days_in_month_le y m : (days_in_month y m <= 31)%Z.
Proof.
  unfold days_in_month.
  destruct (m =? 2)%Z; [destruct (is_leap y); lia|].
  destruct (_ || _); lia.
Qed.

Lemma strptime_Ymd_calendar s dt :
  strptime_Ymd s = Some dt →
  ∃ y m d, calendar_day y m d ∧ dt = midnight_of y m d.
Proof.
  unfold strptime_Ymd.
  destruct (list_ascii_of_string s)
    as [|y1 [|y2 [|y3 [|y4 [|m1 [|m2 [|d1 [|d2 [|]]]]]]]]]; try done.
  destruct (digit_value y1) as [a|] eqn:Ha; simpl; [|done].
  destruct (digit_value y2) as [b|] eqn:Hb; simpl; [|done].
  destruct (digit_value y3) as [c|] eqn:Hc; simpl; [|done].
  destruct (digit_value y4) as [d|] eqn:Hd; simpl; [|done].
  destruct (digit_value m1 ≫= _) as [m|]; simpl; [|done].
  destruct (if Ascii.eqb d1 " " then _ else _) as [dd|]; simpl; [|done].
  destruct (_ && _) eqn:Hok; [|done].
  intros [= <-].
  apply digit_value_range in Ha, Hb, Hc, Hd.
  repeat (apply andb_true_iff in Hok as [Hok ?]).
  exists (1000 * a + 100 * b + 10 * c + d)%Z, m, dd.
  split; [|done]. unfold calendar_day. lia.
Qed.

(** X11: [parse_upload_date] returns the time it is given as the present,
    or midnight of a day of the calendar; it returns the present when the
    upload date is missing, empty or not of eight characters. *)
Theorem X11_parse_upload_date_gives_a_day_or_now (now : datetime)
    (upload_date : option string) :
  (parse_upload_date now upload_date = now ∨
   ∃ y m d, calendar_day y m d ∧
            parse_upload_date now upload_date = midnight_of y m d) ∧
  (String.length (default "" upload_date) ≠ 8%nat →
   parse_upload_date now upload_date = now).
Proof.
  unfold parse_upload_date. split.
  - destruct (negb (truthy upload_date)); [by left|].
    destruct (negb _); [by left|].
    destruct (strptime_Ymd _) as [dt|] eqn:Hdt; [|by left].
    right. apply strptime_Ymd_calendar in Hdt as (y & m & d & Hday & ->).
    by exists y, m, d.
  - intros Hlen. destruct (negb (truthy upload_date)); [done|].
    apply Nat.eqb_neq in Hlen. by rewrite Hlen.
Qed.

(** X12: an upload date written as [YYYYMMDD], the year in four digits,
    month and day in two, is read as midnight of that day, whatever the
    present is. *)
Theorem X12_upload_date_is_read_as_written (now : datetime) (y m d : Z) :
  calendar_day y m d →
  parse_upload_date now (Some (zpad 4 y ++ zpad 2 m ++ zpad 2 d))
  = midnight_of y m d.
Proof.
  intros (Hy & Hm & Hd). pose proof (days_in_month_le y m) as Hmax.
  destruct (pad4_digits y ltac:(lia))
    as (y1 & y2 & y3 & y4 & a & b & c & e & -> & Ha & Hb & Hc & He & Hyv).
  destruct (pad2_digits m ltac:(lia)) as (m1 & m2 & p & q & -> & Hp & Hq & Hmv).
  destruct (pad2_digits d ltac:(lia)) as (d1 & d2 & r & s & -> & Hr & Hs & Hdv).
  change (String y1 (String y2 (String y3 (String y4 "")))
          ++ String m1 (String m2 "") ++ String d1 (String d2 ""))
    with (String y1 (String y2 (String y3 (String y4
            (String m1 (String m2 (String d1 (String d2 "")))))))).
  unfold parse_upload_date, strptime_Ymd.
  cbn [truthy default id String.length list_ascii_of_string
       negb String.eqb Nat.eqb from_option].
  rewrite Ha, Hb, Hc, He, Hp, Hq, Hs, (digit_is_no_space _ _ Hr), Hr.
  cbn [mbind option_bind]. rewrite Hyv, Hmv, Hdv.
  replace (_ && _) with true; [done|].
  symmetry. repeat (apply andb_true_iff; split);
    first [apply Z.leb_le | apply Z.ltb_lt]; lia.
Qed.

Lemma X12_upload_date_is_read_as_written_witness :
  calendar_day 2024 2 29 ∧
  parse_upload_date Feed.half_past
    (Some (zpad 4 2024 ++ zpad 2 2 ++ zpad 2 29))
  = midnight_of 2024 2 29.
Proof.
  assert (H : calendar_day 2024 2 29) by (vm_compute; intuition discriminate).
  split; [exact H|].
  exact (X12_upload_date_is_read_as_written Feed.half_past 2024 2 29 H).
Defined.

End DownloadMore.
(** ** scripts/generate_rss.py *)

Module RssMore.
Import Rss RssSpec Checks RssFacts.

(** *** The configuration *)

(** X13: [load_podcast_config] returns the mapping of the file when the
    file exists and holds the five required fields; it raises [OSError]
    when the file does not exist and [ValueError] when a field is missing,
    and nothing else. *)
Theorem X13_config_needs_its_five_fields (w : World) :
  (∀ config,
      load_podcast_config w = Ok config ↔
      podcast_config w = Some config ∧
      ∀ field, field ∈ required_fields → is_Some (config !! field)) ∧
  (∀ e,
      load_podcast_config w = Raise e ↔
      (e = OSError ∧ podcast_config w = None) ∨
      (e = ValueError ∧
       ∃ config field, podcast_config w = Some config ∧
                       field ∈ required_fields ∧ config !! field = None)).
Proof.
  unfold load_podcast_config.
  destruct (podcast_config w) as [config|].
  - destruct (filter _ required_fields) as [|field missing] eqn:Hmiss.
    + assert (Hall : ∀ field, field ∈ required_fields →
                              is_Some (config !! field)).
      { intros field Hin.
        destruct (config !! field) eqn:Hf; [done|].
        assert (Hx : field ∈ filter (fun field => config !! field = None)
                               required_fields)
          by by apply list_elem_of_filter.
        rewrite Hmiss in Hx. by apply elem_of_nil in Hx. }
      split.
      * intros config'. split.
        -- by intros [= <-].
        -- by intros [[= <-] _].
      * intros e. split; [done|].
        intros [[_ ?]|(_ & config' & field & [= <-] & Hin & Hno)]; [done|].
        destruct (Hall _ Hin) as [x Hx]. congruence.
    + assert (Hin : field ∈ filter (fun field => config !! field = None)
                              required_fields)
        by (rewrite Hmiss; apply list_elem_of_here).
      apply list_elem_of_filter in Hin as [Hno Hin].
      split.
      * intros config'. split; [done|].
        intros [[= <-] Hall]. destruct (Hall _ Hin) as [x Hx]. congruence.
      * intros e. split.
        -- intros [= <-]. right. split; [done|]. by exists config, field.
        -- by intros [[_ ?]|[-> _]].
  - split.
    + intros config. split; [done | by intros [? _]].
    + intros e. split.
      * intros [= <-]. by left.
      * intros [[-> _]|(_ & ? & ? & ? & _)]; done.
Qed.

(** *** The episodes *)

(** X14: when [generate_rss_feed] returns, the file it has written has one
    episode for each record that has an audio URL and none for the others.
    The episodes stand in the reverse of the order of the sorted records,
    as each entry is put before the entries that are there.  An episode
    has the id, title, duration and URL of its record, and its description
    has at most 500 characters. *)
Theorem X14_the_feed_has_the_uploaded_records (w : World)
    (f : Utils.StateFile) (feed : list Episode) :
  generate_rss_feed w f = Ok feed →
  ∃ state,
    Utils.load_state f = Ok state ∧
    Forall2 (episode_of w) (written_order (videos state)) feed ∧
    ep_id <$> feed ≡ₚ video_id <$> uploaded (videos state).
Proof.
  intros Hrun.
  destruct (generate_rss_feed_written w f feed Hrun) as (state & Hload & Hf).
  exists state. split; [done|]. split; [done|].
  assert (Hids : ∀ l eps, Forall2 (episode_of w) l eps →
                          ep_id <$> eps = video_id <$> l).
  { induction 1 as [|v ep l eps' Hv _ IH]; [done|].
    simpl. f_equal; [apply Hv | apply IH]. }
  rewrite (Hids _ _ Hf). unfold written_order. rewrite reverse_Permutation.
  destruct (feed_order_spec (videos state)) as (Hperm & _).
  unfold uploaded. by rewrite Hperm.
Qed.

Lemma X14_the_feed_has_the_uploaded_records_witness :
  ∃ state,
    Utils.load_state
      (Utils.Document {| last_updated := None;
                         videos := [Feed.dated; Listing.record_x 1;
                                    Feed.later] |})
    = Ok state ∧
    Forall2 (episode_of Feed.world) (written_order (videos state))
      [{| ep_id := "d";
          ep_title := "Talk d";
          ep_description := "About things.";
          ep_enclosure_url := "https://example.org/d.mp3";
          ep_enclosure_length := "1000";
          ep_pub_date := Feed.midnight;
          ep_duration := "01:02:05";
          ep_summary := "Talk d" |};
       {| ep_id := "j";
          ep_title := "Talk j";
          ep_description := "About things.";
          ep_enclosure_url := "https://example.org/j.mp3";
          ep_enclosure_length := "1000";
          ep_pub_date := Feed.first_of_june;
          ep_duration := "01:02:05";
          ep_summary := "Talk j" |}] ∧
    ep_id <$> [{| ep_id := "d";
                  ep_title := "Talk d";
                  ep_description := "About things.";
                  ep_enclosure_url := "https://example.org/d.mp3";
                  ep_enclosure_length := "1000";
                  ep_pub_date := Feed.midnight;
                  ep_duration := "01:02:05";
                  ep_summary := "Talk d" |};
               {| ep_id := "j";
                  ep_title := "Talk j";
                  ep_description := "About things.";
                  ep_enclosure_url := "https://example.org/j.mp3";
                  ep_enclosure_length := "1000";
                  ep_pub_date := Feed.first_of_june;
                  ep_duration := "01:02:05";
                  ep_summary := "Talk j" |}]
    ≡ₚ video_id <$> uploaded (videos state).
Proof.
  apply (X14_the_feed_has_the_uploaded_records Feed.world).
  vm_compute. reflexivity.
Defined.

(** X15: with the configuration and the state read, [generate_rss_feed]
    raises, and writes no feed, when one record with an audio URL has no
    date that [fromisoformat] accepts, whatever the other records are. *)
Theorem X15_one_undated_record_stops_the_feed (w : World)
    (f : Utils.StateFile) (config : gmap string string) (state : State)
    (v : Video) :
  load_podcast_config w = Ok config →
  Utils.load_state f = Ok state →
  v ∈ videos state →
  truthy (audio_url v) →
  undated w v →
  ∃ e, generate_rss_feed w f = Raise e.
Proof.
  intros Hconfig Hload Hin Hurl Hun.
  unfold generate_rss_feed, create_feed_generator.
  rewrite Hconfig, Hload. simpl.
  destruct (feed_generator_error w config) as [e|]; simpl; [by exists e|].
  exists ValueError.
  rewrite (add_episodes_undated w _ v); [done| |done..].
  by apply feed_order_uploaded.
Qed.

Lemma X15_one_undated_record_stops_the_feed_witness :
  ∃ e, generate_rss_feed Feed.world
         (Utils.Document {| last_updated := None;
                            videos := [Feed.dated; Feed.episode "n" "" ""] |})
       = Raise e.
Proof.
  apply (X15_one_undated_record_stops_the_feed Feed.world
           (Utils.Document {| last_updated := None;
                              videos := [Feed.dated; Feed.episode "n" "" ""] |})
           Feed.config
           {| last_updated := None;
              videos := [Feed.dated; Feed.episode "n" "" ""] |}
           (Feed.episode "n" "" "")).
  - vm_compute. reflexivity.
  - reflexivity.
  - apply list_elem_of_further, list_elem_of_here.
  - done.
  - split; reflexivity.
Defined.

End RssMore.
(** ** The order of the feed *)

Module OrderMore.
Import Rss RssSpec Pipeline Checks RssFacts.

(** *** The order of strings *)

Lemma compare_not_lt_trans a : ∀ b c,
  String.compare a b ≠ Lt → String.compare b c ≠ Lt → String.compare a c ≠ Lt.
Proof.
  induction a as [|x a IH]; intros [|y b] [|z c]; simpl; try done.
  unfold Ascii.compare.
  destruct (N.compare_spec (N_of_ascii x) (N_of_ascii y)) as [Hxy|Hxy|Hxy],
           (N.compare_spec (N_of_ascii y) (N_of_ascii z)) as [Hyz|Hyz|Hyz],
           (N.compare_spec (N_of_ascii x) (N_of_ascii z)) as [Hxz|Hxz|Hxz];
    try done; try lia; try apply IH.
Qed.

Lemma ltb_false s1 s2 : String.ltb s1 s2 = false ↔ String.compare s1 s2 ≠ Lt.
Proof. unfold String.ltb. by destruct (String.compare s1 s2). Qed.

Lemma key_not_below_trans u v x :
  key_not_below u v → key_not_below v x → key_not_below u x.
Proof.
  unfold key_not_below. rewrite !ltb_false. apply compare_not_lt_trans.
Qed.

Lemma StronglySorted_lookup {A} (R : A → A → Prop) l :
  StronglySorted R l →
  ∀ i j x y, (i < j)%nat → l !! i = Some x → l !! j = Some y → R x y.
Proof.
  induction 1 as [|a l Hl IH Hall]; intros [|i] [|j] x y Hij Hi Hj;
    simpl in *; try done; try lia.
  - injection Hi as <-. rewrite Forall_forall in Hall. apply Hall.
    by eapply list_elem_of_lookup_2.
  - eapply (IH i j); [lia|done..].
Qed.

Lemma feed_order_pairs videos i j u v :
  (i < j)%nat →
  feed_order videos !! i = Some u → feed_order videos !! j = Some v →
  key_not_below u v.
Proof.
  intros Hij Hi Hj.
  destruct (feed_order_spec videos) as (_ & Hsorted & _).
  eapply (StronglySorted_lookup key_not_below (feed_order videos));
    [|exact Hij|exact Hi|exact Hj].
  apply Sorted.Sorted_StronglySorted; [|done].
  intros a b c. apply key_not_below_trans.
Qed.

(** X16: the order in which [generate_rss_feed] adds the episodes is the
    stable sort of the records that have an audio URL, by the strings of
    their keys, greatest first: the same records, no record before one
    with a greater key, and records with equal keys in the order of the
    state. *)
Theorem X16_feed_order_is_the_stable_sort_by_key (videos : list Video) :
  feed_order videos ≡ₚ uploaded videos ∧
  (∀ i j u v,
      (i < j)%nat →
      feed_order videos !! i = Some u → feed_order videos !! j = Some v →
      String.ltb (sort_key u) (sort_key v) = false) ∧
  (∀ k, with_key k (feed_order videos) = with_key k (uploaded videos)).
Proof.
  destruct (feed_order_spec videos) as (Hperm & _ & Hstable).
  split; [done|]. split; [|done].
  intros i j u v. apply feed_order_pairs.
Qed.

(** *** Times as strings *)

Lemma compare_app p1 : ∀ p2 s1 s2,
  String.length p1 = String.length p2 →
  String.compare (p1 ++ s1) (p2 ++ s2)
  = match String.compare p1 p2 with
    | Eq => String.compare s1 s2
    | c => c
    end.
Proof.
  induction p1 as [|a p1 IH]; intros [|b p2] s1 s2 Hlen; simpl in *;
    try done.
  destruct (Ascii.compare a b); [apply IH; lia | done | done].
Qed.

Lemma compare_sep c s1 s2 :
  String.compare (String c s1) (String c s2) = String.compare s1 s2.
Proof. simpl. unfold Ascii.compare. by rewrite N.compare_refl. Qed.

Lemma length_pad2 n : (0 <= n < 100)%Z → String.length (zpad 2 n) = 2%nat.
Proof. intros Hn. apply (Digits.zpad_length 1). simpl. lia. Qed.

Lemma length_pad4 n : (0 <= n < 10000)%Z → String.length (zpad 4 n) = 4%nat.
Proof. intros Hn. apply (Digits.zpad_length 3). simpl. lia. Qed.

Lemma length_pad6 n :
  (0 <= n < 1000000)%Z → String.length (zpad 6 n) = 6%nat.
Proof. intros Hn. apply (Digits.zpad_length 5). simpl. lia. Qed.

Lemma pad2_compare a b :
  (0 <= a < 100)%Z → (0 <= b < 100)%Z →
  String.compare (zpad 2 a) (zpad 2 b) = (a ?= b)%Z.
Proof. intros Ha Hb. apply (Digits.zpad_compare 1); simpl; lia. Qed.

Lemma pad4_compare a b :
  (0 <= a < 10000)%Z → (0 <= b < 10000)%Z →
  String.compare (zpad 4 a) (zpad 4 b) = (a ?= b)%Z.
Proof. intros Ha Hb. apply (Digits.zpad_compare 3); simpl; lia. Qed.

Lemma pad6_compare a b :
  (0 <= a < 1000000)%Z → (0 <= b < 1000000)%Z →
  String.compare (zpad 6 a) (zpad 6 b) = (a ?= b)%Z.
Proof. intros Ha Hb. apply (Digits.zpad_compare 5); simpl; lia. Qed.

Lemma isoformat_fields dt :
  isoformat dt
  = zpad 4 (year dt) ++ String "-" (zpad 2 (month dt) ++ String "-"
      (zpad 2 (day dt) ++ String "T" (zpad 2 (hour dt) ++ String ":"
        (zpad 2 (minute dt) ++ String ":" (zpad 2 (second dt) ++
          (if (microsecond dt =? 0)%Z then ""
           else String "." (zpad 6 (microsecond dt)))))))).
Proof. unfold isoformat. by destruct (microsecond dt =? 0)%Z. Qed.

Lemma isoformat_length dt :
  clock_reading dt →
  String.length (isoformat dt)
  = if (microsecond dt =? 0)%Z then 19%nat else 26%nat.
Proof.
  intros (Hy & Hm & Hd & Hh & Hmi & Hs & Hus). rewrite isoformat_fields.
  repeat (rewrite length_append; cbn [String.length]).
  rewrite length_pad4, !length_pad2 by lia.
  destruct (microsecond dt =? 0)%Z; cbn [String.length]; [done|].
  by rewrite length_pad6 by lia.
Qed.

Lemma isoformat_compare fraction d1 d2 :
  clock_reading d1 → clock_reading d2 →
  negb (microsecond d1 =? 0)%Z = fraction →
  negb (microsecond d2 =? 0)%Z = fraction →
  String.compare (isoformat d1) (isoformat d2) = (ordinal d1 ?= ordinal d2)%Z.
Proof.
  intros (Hy1 & Hm1 & Hd1 & Hh1 & Hmi1 & Hs1 & Hus1)
         (Hy2 & Hm2 & Hd2 & Hh2 & Hmi2 & Hs2 & Hus2) Hf1 Hf2.
  rewrite !isoformat_fields.
  rewrite compare_app by by rewrite !length_pad4 by lia.
  rewrite pad4_compare, compare_sep by lia.
  do 5 (rewrite compare_app by (by rewrite !length_pad2 by lia);
        rewrite pad2_compare by lia; rewrite ?compare_sep).
  assert (Hfrac :
    String.compare
      (if (microsecond d1 =? 0)%Z then ""
       else String "." (zpad 6 (microsecond d1)))
      (if (microsecond d2 =? 0)%Z then ""
       else String "." (zpad 6 (microsecond d2)))
    = (microsecond d1 ?= microsecond d2)%Z).
  { destruct (Z.eqb_spec (microsecond d1) 0) as [->|],
             (Z.eqb_spec (microsecond d2) 0) as [->|];
      simpl in Hf1, Hf2; subst; try done.
    rewrite compare_sep. apply pad6_compare; lia. }
  rewrite Hfrac. symmetry. unfold ordinal.
  destruct (Z.compare_spec (year d1) (year d2));
    [|apply Z.compare_lt_iff; lia | apply Z.compare_gt_iff; lia].
  destruct (Z.compare_spec (month d1) (month d2));
    [|apply Z.compare_lt_iff; lia | apply Z.compare_gt_iff; lia].
  destruct (Z.compare_spec (day d1) (day d2));
    [|apply Z.compare_lt_iff; lia | apply Z.compare_gt_iff; lia].
  destruct (Z.compare_spec (hour d1) (hour d2));
    [|apply Z.compare_lt_iff; lia | apply Z.compare_gt_iff; lia].
  destruct (Z.compare_spec (minute d1) (minute d2));
    [|apply Z.compare_lt_iff; lia | apply Z.compare_gt_iff; lia].
  destruct (Z.compare_spec (second d1) (second d2));
    [|apply Z.compare_lt_iff; lia | apply Z.compare_gt_iff; lia].
  destruct (Z.compare_spec (microsecond d1) (microsecond d2));
    [apply Z.compare_eq_iff | apply Z.compare_lt_iff
     | apply Z.compare_gt_iff]; lia.
Qed.

Lemma written_compare fraction d1 d2 s1 s2 :
  written_as fraction d1 s1 → written_as fraction d2 s2 →
  String.compare s1 s2 = (ordinal d1 ?= ordinal d2)%Z.
Proof.
  intros (Hc1 & Hf1 & ->) (Hc2 & Hf2 & ->).
  rewrite compare_app.
  - rewrite (isoformat_compare fraction) by done.
    rewrite compare_refl. by destruct (ordinal d1 ?= ordinal d2)%Z.
  - rewrite !isoformat_length by done.
    apply (f_equal negb) in Hf1. rewrite negb_involutive in Hf1.
    apply (f_equal negb) in Hf2. rewrite negb_involutive in Hf2.
    by rewrite Hf1, Hf2.
Qed.

(** X17: two times that the download script wrote as
    [isoformat() + "Z"], both with a fraction of the second or both
    without, compare as strings the way they compare as times. *)
Theorem X17_written_times_compare_as_times (fraction : bool)
    (d1 d2 : datetime) (s1 s2 : string) :
  written_as fraction d1 s1 →
  written_as fraction d2 s2 →
  String.compare s1 s2 = (ordinal d1 ?= ordinal d2)%Z ∧
  (String.ltb s1 s2 = true ↔ (ordinal d1 < ordinal d2)%Z) ∧
  (s1 = s2 ↔ ordinal d1 = ordinal d2).
Proof.
  intros H1 H2. pose proof (written_compare _ _ _ _ _ H1 H2) as Hcmp.
  split; [done|]. split.
  - unfold String.ltb. rewrite Hcmp, <- Z.compare_lt_iff.
    by destruct (ordinal d1 ?= ordinal d2)%Z.
  - rewrite <- Z.compare_eq_iff, <- Hcmp. split.
    + intros ->. apply compare_refl.
    + apply String.compare_eq_iff.
Qed.

Lemma X17_written_times_compare_as_times_witness :
  String.compare (isoformat Feed.half_past ++ "Z")
    (isoformat (Listing.clock 1 1) ++ "Z")
  = (ordinal Feed.half_past ?= ordinal (Listing.clock 1 1))%Z ∧
  (String.ltb (isoformat Feed.half_past ++ "Z")
     (isoformat (Listing.clock 1 1) ++ "Z") = true ↔
   (ordinal Feed.half_past < ordinal (Listing.clock 1 1))%Z) ∧
  (isoformat Feed.half_past ++ "Z" = isoformat (Listing.clock 1 1) ++ "Z" ↔
   ordinal Feed.half_past = ordinal (Listing.clock 1 1)).
Proof.
  apply (X17_written_times_compare_as_times true).
  - split; [|done]. unfold clock_reading. simpl. lia.
  - split; [|done]. unfold clock_reading. simpl. lia.
Defined.




(** ** Runs of the scripts, one after the other *)

(** X19: whatever runs of the download and the upload script follow one
    another, a record of the state file stays at its place with all its
    fields but [audio_url] and [release_tag]; once it is published it does
    not change any more; the ids of the state file stay a prefix of the ids
    afterwards. *)
Theorem X19_runs_keep_the_records_in_place (stages : list Stage)
    (f : Utils.StateFile) :
  (∀ i v,
      stored_videos f !! i = Some v →
      ∃ v', stored_videos (pipeline stages f) !! i = Some v' ∧
            same_item v v' ∧ (published v → v' = v)) ∧
  ∃ added,
    video_id <$> stored_videos (pipeline stages f)
    = app (video_id <$> stored_videos f) added.
Proof.
  destruct (PipelineFacts.pipeline_evolves stages f) as (kept & new & -> & Hk).
  split.
  - intros i v Hi.
    destruct (Forall2_lookup_l _ _ _ _ _ Hk Hi) as (v' & Hi' & Ht).
    exists v'. split; [by apply lookup_app_l_Some|].
    split; [by apply UploadMore.touched_same_item|].
    intros Hpub. by apply UploadFacts.touched_published.
  - exists (video_id <$> new). rewrite fmap_app. f_equal.
    clear -Hk. induction Hk as [|v v' l l' Hv _ IH]; [done|].
    simpl. f_equal; [|done]. symmetry.
    by destruct (UploadMore.touched_same_item _ _ Hv) as [-> _].
Qed.

End OrderMore.
(** ** Runs in which nothing fails *)

Module RunsMore.
Import Pipeline Checks.

(** *** The upload script *)

Section AllGoesWell.
Import Upload UploadFacts.
Variable w : Upload.World.
Hypothesis files : ∀ idx path, path_exists w idx path = true.
Hypothesis releases : ∀ idx tag, create_git_release w idx tag = true.
Hypothesis uploads :
  ∀ idx tag path, truthy (upload_asset w idx tag path) = true.

Lemma upload_step_good idx ref st v :
  objs st !! ref = Some v →
  ∃ st' url release,
    upload_step w idx ref st = Ok st' ∧ url ≠ "" ∧
    objs st' = <[ref := with_release v url release]> (objs st).
Proof.
  intros Hv. unfold upload_step. rewrite Hv, files. simpl.
  assert (Hurl : ∀ release,
    default "" (upload_asset w idx release (the_file_path v)) ≠ "").
  { intros release. pose proof (uploads idx release (the_file_path v)) as Hu.
    destruct (upload_asset _ _ _ _) as [url|]; [|done].
    by apply truthy_Some. }
  unfold get_or_create_release, create_release, upload_file_to_release.
  destruct (current_release st) as [r|];
    [destruct (size_limit_reached _)|];
    rewrite ?releases; simpl; rewrite uploads;
    eexists _, _, _; (split; [reflexivity|]); split; done.
Qed.

Lemma upload_loop_good refs : ∀ idx st,
  (∀ r, r ∈ refs → (r < List.length (objs st))%nat) →
  ∃ st', upload_loop w idx refs st = Ok st' ∧
         List.length (objs st') = List.length (objs st) ∧
         (∀ i v, objs st !! i = Some v → published v →
                 ∃ v', objs st' !! i = Some v' ∧ published v') ∧
         (∀ r, r ∈ refs → ∃ v', objs st' !! r = Some v' ∧ published v').
Proof.
  induction refs as [|ref refs IH]; intros idx st Hrefs; simpl.
  - exists st. split; [done|]. split; [done|]. split; [eauto|].
    intros r Hr. by apply elem_of_nil in Hr.
  - destruct (lookup_lt_is_Some_2 (objs st) ref) as [v Hv];
      [apply Hrefs, list_elem_of_here|].
    destruct (upload_step_good idx ref st v Hv)
      as (st1 & url & release & -> & Hurl & Hobjs).
    simpl.
    assert (Hlen : List.length (objs st1) = List.length (objs st))
      by (rewrite Hobjs; apply length_insert).
    assert (Href : objs st1 !! ref
                   = Some (with_release v url release)).
    { rewrite Hobjs. apply list_lookup_insert_eq. by eapply lookup_lt_Some. }
    destruct (IH (S idx) st1) as (st' & -> & Hlen' & Hkeep & Hdone).
    { intros r Hr. rewrite Hlen. by apply Hrefs, list_elem_of_further. }
    exists st'. split; [done|]. split; [congruence|]. split.
    + intros i u Hu Hpub. destruct (decide (i = ref)) as [->|Hne].
      * eapply Hkeep; [exact Href|]. by apply published_with_release.
      * eapply Hkeep; [|exact Hpub].
        rewrite Hobjs. by rewrite list_lookup_insert_ne.
    + intros r [->|Hr]%elem_of_cons; [|by apply Hdone].
      eapply Hkeep; [exact Href|]. by apply published_with_release.
Qed.

Lemma upload_all_good records :
  ∃ st, upload_all w records = Ok st ∧ Forall published (objs st).
Proof.
  destruct (upload_loop_good (videos_to_upload records) 1 (start records))
    as (st & Hrun & Hlen & Hkeep & Hdone).
  { intros r Hr. apply videos_to_upload_spec, needs_upload_spec in Hr
      as (v & Hv & _). by eapply lookup_lt_Some. }
  exists st. split; [done|]. apply Forall_lookup. intros i v' Hi.
  destruct (lookup_lt_is_Some_2 records i) as [v Hv].
  { simpl in Hlen. rewrite <- Hlen. by eapply lookup_lt_Some. }
  destruct (truthy (audio_url v)) eqn:Hpub.
  - destruct (Hkeep i v Hv) as (v'' & Hi'' & Hpub'').
    { unfold published. by rewrite Hpub. }
    congruence.
  - destruct (Hdone i) as (v'' & Hi'' & Hpub''); [|congruence].
    apply videos_to_upload_spec, needs_upload_spec. exists v.
    split; [done|]. unfold published. rewrite Hpub. simpl. tauto.
Qed.

End AllGoesWell.

(** X20: when the credentials are set, the state can be read, every file
    is there, every release can be created and every upload returns a URL,
    the upload script ends with status 0 and every record of the state
    file is published. *)
Theorem X20_all_records_are_published_when_nothing_fails (w : Upload.World)
    (f : Utils.StateFile) (token : string) (repo : string * string)
    (state : State) :
  Upload.get_github_token w = Ok token →
  Upload.get_repo_info w = Ok repo →
  Utils.load_state f = Ok state →
  (∀ idx path, Upload.path_exists w idx path = true) →
  (∀ idx tag, Upload.create_git_release w idx tag = true) →
  (∀ idx tag path, truthy (Upload.upload_asset w idx tag path) = true) →
  (Upload.main w f).2 = 0%Z ∧
  Forall published (stored_videos (Upload.main w f).1).
Proof.
  intros Htoken Hrepo Hload Hfiles Hreleases Huploads.
  unfold Upload.main, Upload.upload_new_videos_to_release.
  rewrite Htoken, Hrepo, Hload. simpl.
  destruct (Upload.videos_to_upload (videos state)) as [|ref refs] eqn:Hrefs.
  - split; [done|]. simpl. unfold stored_videos. rewrite Hload.
    apply Forall_lookup. intros i v Hv.
    destruct (truthy (audio_url v)) eqn:Hpub;
      [unfold published; by rewrite Hpub|].
    assert (Hin : i ∈ Upload.videos_to_upload (videos state)).
    { apply UploadFacts.videos_to_upload_spec, UploadFacts.needs_upload_spec.
      exists v. split; [done|]. unfold published. rewrite Hpub. simpl.
      tauto. }
    rewrite Hrefs in Hin. by apply elem_of_nil in Hin.
  - destruct (upload_all_good w Hfiles Hreleases Huploads (videos state))
      as (st & -> & Hall).
    done.
Qed.

Lemma X20_all_records_are_published_when_nothing_fails_witness :
  (Upload.main Scenario.world Scenario.before).2 = 0%Z ∧
  Forall published
    (stored_videos (Upload.main Scenario.world Scenario.before).1).
Proof.
  apply (X20_all_records_are_published_when_nothing_fails Scenario.world
           Scenario.before "token" ("owner", "repo")
           {| last_updated := Some "2024-01-01T10:00:00.000002Z";
              videos := [Scenario.video_A; Scenario.video_B] |}).
  - reflexivity.
  - vm_compute. reflexivity.
  - reflexivity.
  - done.
  - done.
  - intros idx tag path. simpl.
    by destruct tag.
Defined.

(** *** The dates of the new records *)

Lemma parse_upload_date_reading now upload_date :
  clock_reading now →
  clock_reading (Download.parse_upload_date now upload_date).
Proof.
  intros Hnow. unfold Download.parse_upload_date.
  destruct (negb (truthy upload_date)); [done|].
  destruct (negb _); [done|].
  destruct (strptime_Ymd _) as [dt|] eqn:Hdt; [|done].
  apply DownloadMore.strptime_Ymd_calendar in Hdt
    as (y & m & d & (Hy & Hm & Hd) & ->).
  pose proof (DownloadMore.days_in_month_le y m).
  unfold clock_reading, midnight_of. simpl. lia.
Qed.

Lemma process_loop_dates w l : ∀ idx r,
  r ∈ Download.process_loop w idx l [] →
  ∃ i v,
    v ∈ l ∧
    processed_date r = isoformat (Download.utcnow w i 1) ++ "Z" ∧
    pub_date r
    = Some (isoformat (Download.parse_upload_date (Download.utcnow w i 0)
                         (Download.pv_upload_date v)) ++ "Z").
Proof.
  induction l as [|v l IH]; intros idx r Hr; simpl in Hr.
  - by apply elem_of_nil in Hr.
  - destruct (DownloadSpec.ingestible w v) eqn:Hi.
    + rewrite (DownloadFacts.process_video_ingestible _ _ _ Hi),
        DownloadFacts.process_loop_acc in Hr.
      apply elem_of_app in Hr as [Hr|Hr].
      * apply list_elem_of_singleton in Hr as ->. exists idx, v.
        split; [apply list_elem_of_here | done].
      * destruct (IH _ _ Hr) as (i & v' & Hin & Hrest). exists i, v'.
        split; [by apply list_elem_of_further | done].
    + rewrite (DownloadFacts.process_video_skipped _ _ _ Hi) in Hr.
      destruct (IH _ _ Hr) as (i & v' & Hin & Hrest). exists i, v'.
      split; [by apply list_elem_of_further | done].
Qed.

(** X21: with a clock that gives times of the calendar, the two dates of
    every record that [process_new_videos] returns are times written as
    [isoformat() + "Z"]; [pub_date] is there, and it is the key by which
    the feed is sorted. *)
Theorem X21_new_records_carry_written_times (w : Download.World)
    (f : Utils.StateFile) (newly_processed : list Video) :
  (∀ idx k, clock_reading (Download.utcnow w idx k)) →
  Download.process_new_videos w f = Ok newly_processed →
  ∀ r, r ∈ newly_processed →
    ∃ published_at processed_at,
      pub_date r = Some (Rss.sort_key r) ∧
      written_as (negb (microsecond published_at =? 0)%Z) published_at
        (Rss.sort_key r) ∧
      written_as (negb (microsecond processed_at =? 0)%Z) processed_at
        (processed_date r).
Proof.
  intros Hclock Hrun r Hr. unfold Download.process_new_videos in Hrun.
  destruct (Download.get_playlist_url w) as [url|]; simpl in Hrun; [|done].
  destruct (Utils.get_processed_video_ids f) as [ids|]; simpl in Hrun;
    [|done].
  destruct (Download.fetch_playlist_videos w url).2 as [listing|];
    simpl in Hrun; [|done].
  injection Hrun as <-.
  apply process_loop_dates in Hr as (i & v & _ & Hprocessed & Hpub).
  exists (Download.parse_upload_date (Download.utcnow w i 0)
            (Download.pv_upload_date v)), (Download.utcnow w i 1).
  unfold Rss.sort_key. rewrite Hpub, Hprocessed. simpl.
  split; [done|]. split.
  - split; [by apply parse_upload_date_reading | done].
  - split; [apply Hclock | done].
Qed.

Lemma X21_new_records_carry_written_times_witness :
  ∃ newly_processed,
    Download.process_new_videos (Listing.steady Listing.entries) Utils.Absent
    = Ok newly_processed ∧
    ∀ r, r ∈ newly_processed →
      ∃ published_at processed_at,
        pub_date r = Some (Rss.sort_key r) ∧
        written_as (negb (microsecond published_at =? 0)%Z) published_at
          (Rss.sort_key r) ∧
        written_as (negb (microsecond processed_at =? 0)%Z) processed_at
          (processed_date r).
Proof.
  eexists. split; [vm_compute; reflexivity|].
  apply (X21_new_records_carry_written_times
           (Listing.steady Listing.entries) Utils.Absent).
  - intros idx k. unfold clock_reading. simpl. lia.
  - vm_compute. reflexivity.
Defined.

End RunsMore.
